(** * rv_asm_gen: a shallow embedding of the register pool and of the
      instruction renderer, with the properties of the specification.

    Sources embedded: riscv/register.py, riscv/instruction.py, riscv/csr.py,
    riscv/label.py and riscv/assembler.py.

    Conventions of the embedding.
    - Python [str] is [string], one character per code point, for the
      code points below 256.  [isdigit] is Python's on that range; [lower]
      and [upper] map the ASCII letters, which is all the mnemonics and
      names of the repository are made of.
    - A [dict] is an association list in insertion order with distinct keys
      ([dict_set] overwrites in place or appends, as CPython does).
    - [Register] objects are mutable and shared between pools, so they live in
      a store ([heap]) and pools hold addresses.  [CSRRegister], [Label] and
      [InstructionDefinition] are never mutated and are plain values.
    - Generators of the [random] module are stateful objects too: the store
      [rng] maps the module-level generator and every [random.Random]
      instance to its current state.
    - Exceptions are values of [exn]; a call returns [result A]. *)

From Stdlib Require Import ZArith NArith String Ascii List Bool Lia.
From Stdlib Require DecimalString HexadecimalString HexadecimalN HexadecimalPos.
Import ListNotations.

Local Open Scope string_scope.
Local Open Scope list_scope.

(* ================================================================= *)
(** ** Python strings *)

Module Py.

(** [s.startswith(p)] *)
Definition startswith (s p : string) : bool := String.prefix p s.

(** [s[1:]] *)
Definition tail (s : string) : string :=
  match s with
  | EmptyString => EmptyString
  | String _ t => t
  end.

(** [c.isdigit()] for one character: the decimal digits and, below 256,
    the superscripts two, three and one (U+00B2, U+00B3, U+00B9), which
    Unicode classes as digits. *)
Definition is_digit_char (c : ascii) : bool :=
  let n := nat_of_ascii c in
  ((48 <=? n)%nat && (n <=? 57)%nat)
  || Nat.eqb n 178 || Nat.eqb n 179 || Nat.eqb n 185.

Fixpoint all_chars (p : ascii -> bool) (s : string) : bool :=
  match s with
  | EmptyString => true
  | String c t => p c && all_chars p t
  end.

(** [s.isdigit()]: at least one character and only digits. *)
Definition isdigit (s : string) : bool :=
  match s with
  | EmptyString => false
  | _ => all_chars is_digit_char s
  end.

Definition lower_char (c : ascii) : ascii :=
  let n := nat_of_ascii c in
  if (65 <=? n)%nat && (n <=? 90)%nat then ascii_of_nat (n + 32) else c.

(** [s.lower()] *)
Fixpoint lower (s : string) : string :=
  match s with
  | EmptyString => EmptyString
  | String c t => String (lower_char c) (lower t)
  end.

Definition upper_char (c : ascii) : ascii :=
  let n := nat_of_ascii c in
  if (97 <=? n)%nat && (n <=? 122)%nat then ascii_of_nat (n - 32) else c.

(** [s.upper()] *)
Fixpoint upper (s : string) : string :=
  match s with
  | EmptyString => EmptyString
  | String c t => String (upper_char c) (upper t)
  end.

(** [sep.join(l)] *)
Definition join (sep : string) (l : list string) : string := String.concat sep l.

(** [str(z)] for an [int] *)
Definition str_int (z : Z) : string :=
  DecimalString.NilZero.string_of_int (Z.to_int z).

Definition hex_digits (n : N) : string :=
  HexadecimalString.NilZero.string_of_uint (N.to_hex_uint n).

(** [hex(z)]: sign, then [0x], then the lowercase digits of the magnitude. *)
Definition hex (z : Z) : string :=
  if (z <? 0)%Z then "-0x" ++ hex_digits (Z.to_N (- z))
  else "0x" ++ hex_digits (Z.to_N z).

Fixpoint zeros (n : nat) : string :=
  match n with
  | O => EmptyString
  | S k => String "0" (zeros k)
  end.

(** [format(z, "03x")]: zero padding to width 3, the sign counted. *)
Definition format_03x (z : Z) : string :=
  if (z <? 0)%Z then
    let d := hex_digits (Z.to_N (- z)) in "-" ++ zeros (2 - String.length d) ++ d
  else
    let d := hex_digits (Z.to_N z) in zeros (3 - String.length d) ++ d.

End Py.

(* ================================================================= *)
(** ** Dictionaries *)

Section Dict.
Context {V : Type}.

Definition dict : Type := list (string * V).

Fixpoint dict_get (d : dict) (k : string) : option V :=
  match d with
  | [] => None
  | (k', v) :: t => if String.eqb k' k then Some v else dict_get t k
  end.

(** [d[k] = v] *)
Fixpoint dict_set (d : dict) (k : string) (v : V) : dict :=
  match d with
  | [] => [(k, v)]
  | (k', v') :: t =>
      if String.eqb k' k then (k', v) :: t else (k', v') :: dict_set t k v
  end.

(** [k in d] *)
Definition dict_mem (d : dict) (k : string) : bool :=
  match dict_get d k with Some _ => true | None => false end.

Definition keys (d : dict) : list string := map fst d.
Definition values (d : dict) : list V := map snd d.

(** [{key(x): val(x) for x in l}] and [dict(pairs)] *)
Definition dict_of (l : list (string * V)) : dict :=
  fold_left (fun d kv => dict_set d (fst kv) (snd kv)) l [].

(** [del d[k]], for a key that is present *)
Fixpoint dict_del (d : dict) (k : string) : dict :=
  match d with
  | [] => []
  | (k', v) :: t => if String.eqb k' k then t else (k', v) :: dict_del t k
  end.
End Dict.

Arguments dict V : clear implicits.

(* ================================================================= *)
(** ** Exceptions *)

Inductive OperandType :=
| REGISTER | IMMEDIATE | LABEL | FREGISTER | BASE_OFFSET | CSR.

(** The exceptions the modelled code raises.  All but [AttributeError] and
    [IndexError] are Python [ValueError]s; the constructor records the
    raising statement and the data its message carries. *)
Inductive exn :=
| InvalidIdentity (name : string)
    (* register.py:25  "Invalid register name: {name}" *)
| UnknownRegister (name : string)
    (* register.py:144 "Invalid register name: {name}" *)
| NoMatch
    (* register.py:181 "No registers matching the filter were found" *)
| NoAppropriateRegister
    (* register.py:155 "No appropriate register found" *)
| ArityMismatch (expected got : nat)
    (* instruction.py:56 "Expected {n} operands but got {m}." *)
| OperandTypeMismatch (position : nat) (expected : OperandType)
    (* instruction.py:63,67,71,75,79,83 "Expected ... for operand {i+1} ..." *)
| UnpackError (expected got : nat)
    (* ValueError of the tuple unpacking at instruction.py:84 *)
| InvalidLabel (name : string)
    (* label.py:12 "Invalid label name: {name}" *)
| DuplicateLabel (name : string)
    (* assembler.py:31 "Label {name} already exists." *)
| EmptyCsr
    (* csr.py:42 "No CSRRegisters available to pick from." *)
| AddInstructionError (cause : exn)
    (* assembler.py:24 "Error adding instruction ..." wrapping the cause *)
| AttributeError (attribute : string)
| KeyError (key : string)
| IndexError
| TypeError.
    (* [hex(None)], reached through [Label.__repr__] at label.py:34 *)

Definition is_ValueError (e : exn) : bool :=
  match e with
  | AttributeError _ | KeyError _ | IndexError | TypeError => false
  | _ => true
  end.

Inductive result (A : Type) :=
| Ok (a : A)
| Err (e : exn).
Arguments Ok {A} a.
Arguments Err {A} e.

(* ================================================================= *)
(** ** The [random] module *)

(** A generator is the sequence of numbers it will draw and the position in
    that sequence.  [randbelow] consumes one draw. *)
Record Random := mkRandom { draws : nat -> Z; cursor : nat }.

Definition advance (g : Random) : Random :=
  {| draws := draws g; cursor := S (cursor g) |}.

Definition randbelow (g : Random) (n : Z) : Z * Random :=
  ((draws g (cursor g) mod n)%Z, advance g).

(** [g.randint(a, b)] *)
Definition randint (g : Random) (a b : Z) : Z * Random :=
  let (k, g') := randbelow g (b - a + 1) in ((a + k)%Z, g').

(** [g.choice(seq)] *)
Definition choice {A} (g : Random) (seq : list A) : result A * Random :=
  match seq with
  | [] => (Err IndexError, g)
  | _ =>
      let (k, g') := randbelow g (Z.of_nat (length seq)) in
      match nth_error seq (Z.to_nat k) with
      | Some x => (Ok x, g')
      | None => (Err IndexError, g')
      end
  end.

(** A [random_engine] attribute holds the [random] module itself or a
    [random.Random] instance. *)
Inductive engine :=
| random_module
| Random_obj (id : nat).

Definition engine_eqb (a b : engine) : bool :=
  match a, b with
  | random_module, random_module => true
  | Random_obj i, Random_obj j => Nat.eqb i j
  | _, _ => false
  end.

(* ================================================================= *)
(** ** riscv/register.py: the data *)

Inductive RegisterType := X | F.

Inductive RegisterSaveType := Caller | Callee | System.

Definition RegisterType_eqb (a b : RegisterType) : bool :=
  match a, b with
  | X, X | F, F => true
  | _, _ => false
  end.

Definition RegisterSaveType_eqb (a b : RegisterSaveType) : bool :=
  match a, b with
  | Caller, Caller | Callee, Callee | System, System => true
  | _, _ => false
  end.

Record Register := mkRegister {
  name : string;
  abi_name : string;
  type : RegisterType;
  saved_by : RegisterSaveType;
  is_reserved : bool;
  is_in_use : bool
}.

(** [Register.__init__].  The two [isinstance] checks on [type] and
    [saved_by] cannot fail on typed arguments. *)
Definition Register_init (name : string) (abi_name : option string)
    (type : RegisterType) (saved_by : RegisterSaveType)
    (is_reserved is_in_use : bool) : result Register :=
  if negb (Py.startswith name "x" || Py.startswith name "f")
     || negb (Py.isdigit (Py.tail name))
  then Err (InvalidIdentity name)
  else
    Ok {| name := name;
          abi_name := match abi_name with
                      | Some a => if String.eqb a "" then name else a
                      | None => name
                      end;
          type := type;
          saved_by := saved_by;
          is_reserved := is_reserved;
          is_in_use := is_in_use |}.

Definition RegisterType_name (t : RegisterType) : string :=
  match t with X => "X" | F => "F" end.

Definition RegisterSaveType_name (s : RegisterSaveType) : string :=
  match s with Caller => "Caller" | Callee => "Callee" | System => "System" end.

Definition newline : string := String (ascii_of_nat 10) EmptyString.

(** [Register.__str__] *)
Definition Register_str (r : Register) : string :=
  RegisterType_name (type r) ++ ": " ++ name r ++ "(" ++ abi_name r ++ ")" ++ newline
  ++ "Saved By: " ++ RegisterSaveType_name (saved_by r) ++ newline
  ++ "Reserved: " ++ (if is_reserved r then "Yes" else "No") ++ newline
  ++ "In Use: " ++ (if is_in_use r then "Yes" else "No") ++ newline.

(* ================================================================= *)
(** ** The store *)

Definition ref := nat.

Record World := mkWorld {
  heap : ref -> Register;   (* the Register object at each address *)
  next : ref;               (* the next address to allocate *)
  rng : engine -> Random;   (* the state of each generator *)
  next_engine : nat         (* the next [random.Random] instance *)
}.

Definition heap_set (w : World) (a : ref) (r : Register) : World :=
  {| heap := fun b => if Nat.eqb b a then r else heap w b;
     next := next w;
     rng := rng w;
     next_engine := next_engine w |}.

Definition rng_set (w : World) (e : engine) (g : Random) : World :=
  {| heap := heap w;
     next := next w;
     rng := fun e' => if engine_eqb e' e then g else rng w e';
     next_engine := next_engine w |}.

(** The property setters [reg.is_in_use = v] and [reg.is_reserved = v]. *)
Definition set_is_in_use (w : World) (a : ref) (v : bool) : World :=
  let r := heap w a in
  heap_set w a {| name := name r; abi_name := abi_name r; type := type r;
                  saved_by := saved_by r; is_reserved := is_reserved r;
                  is_in_use := v |}.

Definition set_is_reserved (w : World) (a : ref) (v : bool) : World :=
  let r := heap w a in
  heap_set w a {| name := name r; abi_name := abi_name r; type := type r;
                  saved_by := saved_by r; is_reserved := v;
                  is_in_use := is_in_use r |}.

(** Computations that read and write the store and may raise.  The store
    survives an exception. *)
Definition M (A : Type) : Type := World -> result A * World.

Definition ret {A} (a : A) : M A := fun w => (Ok a, w).
Definition raise {A} (e : exn) : M A := fun w => (Err e, w).
Definition bind {A B} (m : M A) (k : A -> M B) : M B :=
  fun w => match m w with
           | (Ok a, w') => k a w'
           | (Err e, w') => (Err e, w')
           end.

Notation "x <- m ;; k" := (bind m (fun x => k))
  (at level 61, m at next level, right associativity).

(** [Register(...)]: construct and allocate. *)
Definition new_Register (name : string) (abi_name : option string)
    (type : RegisterType) (saved_by : RegisterSaveType)
    (is_reserved is_in_use : bool) : M ref :=
  fun w =>
    match Register_init name abi_name type saved_by is_reserved is_in_use with
    | Ok r =>
        (Ok (next w),
         {| heap := fun b => if Nat.eqb b (next w) then r else heap w b;
            next := S (next w);
            rng := rng w;
            next_engine := next_engine w |})
    | Err e => (Err e, w)
    end.

(* ================================================================= *)
(** ** riscv/register.py: [Registers] *)

Record Registers := mkRegisters {
  registers : dict ref;
  random_engine : engine
}.

(** [random_engine if random_engine else random] *)
Definition engine_or_module (random_engine : option engine) : engine :=
  match random_engine with
  | Some e => e
  | None => random_module
  end.

(** [for i in r: d[key(i)] = Register(...)] *)
Fixpoint for_each (r : list nat) (body : nat -> dict ref -> M (dict ref))
    (d : dict ref) : M (dict ref) :=
  match r with
  | [] => ret d
  | i :: t => d' <- body i d ;; for_each t body d'
  end.

(** [range(a, b)] *)
Definition range (a b : nat) : list nat := seq a (b - a).

Definition fmt (prefix : string) (i : nat) : string :=
  prefix ++ Py.str_int (Z.of_nat i).

Definition add_register (prefix abi_prefix : string) (offset : nat)
    (type : RegisterType) (saved_by : RegisterSaveType)
    (i : nat) (d : dict ref) : M (dict ref) :=
  a <- new_Register (fmt prefix i) (Some (fmt abi_prefix (i - offset)))
         type saved_by false false ;;
  ret (dict_set d (fmt prefix i) a).

(** The [else] branch of [Registers.__init__]: the calling convention. *)
Definition default_registers : M (dict ref) :=
  x0 <- new_Register "x0" (Some "zero") X Caller true false ;;
  x1 <- new_Register "x1" (Some "ra") X Caller true false ;;
  x2 <- new_Register "x2" (Some "sp") X System true false ;;
  x3 <- new_Register "x3" (Some "gp") X System true false ;;
  x4 <- new_Register "x4" (Some "tp") X System true false ;;
  d <- ret (dict_of [("x0", x0); ("x1", x1); ("x2", x2); ("x3", x3); ("x4", x4)]) ;;
  d <- for_each (range 5 8) (add_register "x" "t" 5 X Caller) d ;;
  d <- for_each (range 8 10) (add_register "x" "s" 8 X Callee) d ;;
  d <- for_each (range 10 18) (add_register "x" "a" 10 X Caller) d ;;
  d <- for_each (range 18 28) (add_register "x" "s" 8 X Callee) d ;;
  d <- for_each (range 28 32) (add_register "x" "t" 23 X Caller) d ;;
  d <- for_each (range 0 8) (add_register "f" "ft" 0 F Caller) d ;;
  d <- for_each (range 10 18) (add_register "f" "fa" 10 F Caller) d ;;
  for_each (range 8 32) (add_register "f" "fs" 8 F Callee) d.

(** [Registers.__init__]: an absent or empty [registers] selects the
    default register file. *)
Definition Registers_init (registers : option (dict ref))
    (random_engine : option engine) : M Registers :=
  let e := engine_or_module random_engine in
  match registers with
  | Some (kv :: d) => ret {| registers := kv :: d; random_engine := e |}
  | _ => d <- default_registers ;; ret {| registers := d; random_engine := e |}
  end.

(** [Registers.reset_usage] *)
Definition reset_usage (self : Registers) : M unit :=
  fun w =>
    (Ok tt,
     fold_left (fun w a => set_is_reserved (set_is_in_use w a false) a false)
               (values (registers self)) w).

(** [Registers.get_register]: the key first, then the first register whose
    ABI name is [name]. *)
Definition get_register (w : World) (self : Registers) (name : string)
    : option ref :=
  match dict_get (registers self) name with
  | Some a => Some a
  | None =>
      find (fun a => String.eqb (abi_name (heap w a)) name)
           (values (registers self))
  end.

(** [Registers.reserve_register] *)
Definition reserve_register (self : Registers) (name : string) : M ref :=
  fun w =>
    match get_register w self name with
    | None => (Err (UnknownRegister name), w)
    | Some a => (Ok a, set_is_reserved w a true)
    end.

(** The four comparisons of [Registers.filter]. *)
Definition type_is (w : World) (t : RegisterType) (a : ref) : bool :=
  RegisterType_eqb (type (heap w a)) t.
Definition saved_by_is (w : World) (s : RegisterSaveType) (a : ref) : bool :=
  RegisterSaveType_eqb (saved_by (heap w a)) s.
Definition is_reserved_is (w : World) (b : bool) (a : ref) : bool :=
  Bool.eqb (is_reserved (heap w a)) b.
Definition is_in_use_is (w : World) (b : bool) (a : ref) : bool :=
  Bool.eqb (is_in_use (heap w a)) b.

(** [subset if p is None else [reg for reg in subset if test(reg, p)]] *)
Definition keep {A} (p : option A) (test : A -> ref -> bool)
    (subset : list ref) : list ref :=
  match p with
  | None => subset
  | Some v => List.filter (test v) subset
  end.

(** [Registers.filter].  [subset_dict] is not empty where [Registers] is
    constructed, so the constructor keeps it and the engine it is given. *)
Definition filter (w : World) (self : Registers)
    (type : option RegisterType) (saved_by : option RegisterSaveType)
    (is_reserved is_in_use : option bool) : result Registers :=
  let subset := keep type (type_is w) (values (registers self)) in
  let subset := keep saved_by (saved_by_is w) subset in
  let subset := keep is_reserved (is_reserved_is w) subset in
  let subset := keep is_in_use (is_in_use_is w) subset in
  match subset with
  | [] => Err NoMatch
  | _ =>
      let subset_dict := dict_of (map (fun a => (name (heap w a), a)) subset) in
      Ok {| registers := subset_dict; random_engine := random_engine self |}
  end.

(** [Registers.pick_register] with every parameter bound. *)
Definition pick_register (self : Registers)
    (type : option RegisterType) (saved_by : option RegisterSaveType)
    (is_reserved is_in_use : option bool) (reserve : bool) : M ref :=
  fun w =>
    match filter w self type saved_by is_reserved is_in_use with
    | Err _ => (Err NoAppropriateRegister, w)
    | Ok regs =>
        let regs_list :=
          match filter w regs None None None (Some false) with
          | Ok unused_regs => Ok (values (registers unused_regs))
          | Err e =>
              if is_ValueError e then Ok (values (registers regs)) else Err e
          end in
        match regs_list with
        | Err e => (Err e, w)
        | Ok regs_list =>
            match choice (rng w (random_engine self)) regs_list with
            | (Err e, g) => (Err e, rng_set w (random_engine self) g)
            | (Ok chosen_reg, g) =>
                let w := rng_set w (random_engine self) g in
                let w := set_is_in_use w chosen_reg true in
                let w := if reserve then set_is_reserved w chosen_reg true
                         else w in
                (Ok chosen_reg, w)
            end
        end
    end.

(** The signature's defaults: [type=None, saved_by=None, is_reserved=False,
    is_in_use=None, reserve=False].  These are the calls
    [pick_register()] and [pick_register(type=t)]. *)
Definition pick_register_noargs (self : Registers) : M ref :=
  pick_register self None None (Some false) None false.

Definition pick_register_of_type (self : Registers) (t : RegisterType) : M ref :=
  pick_register self (Some t) None (Some false) None false.

(** A store with nothing allocated, for building concrete scenarios. *)
Definition blank : Register :=
  {| name := ""; abi_name := ""; type := X; saved_by := Caller;
     is_reserved := false; is_in_use := false |}.

Definition empty_world (g : engine -> Random) : World :=
  {| heap := fun _ => blank; next := 0; rng := g; next_engine := 0 |}.

(* ================================================================= *)
(** ** riscv/csr.py *)

Module csr.

Record CSRRegister := mkCSRRegister {
  name : string;
  description : string;
  address : Z
}.

(** [CSRRegister.__str__] *)
Definition CSRRegister_str (c : CSRRegister) : string :=
  name c ++ " (0x" ++ Py.format_03x (address c) ++ "): " ++ description c.

Record CSRRegisters := mkCSRRegisters {
  registers : dict CSRRegister;
  random_engine : engine
}.

Definition CSRRegisters_init (random_engine : option engine) : CSRRegisters :=
  {| registers :=
       dict_of
         [("MSTATUS", mkCSRRegister "mstatus" "Machine status register" 0x300);
          ("MIE", mkCSRRegister "mie" "Machine interrupt-enable register" 0x304);
          ("MTVEC", mkCSRRegister "mtvec" "Machine trap-handler base address" 0x305)];
     random_engine := engine_or_module random_engine |}.

(** [CSRRegisters.pick_random_csr] *)
Definition pick_random_csr (self : CSRRegisters) : M CSRRegister :=
  fun w =>
    match registers self with
    | [] => (Err EmptyCsr, w)
    | _ =>
        let (r, g) := choice (rng w (random_engine self)) (values (registers self)) in
        (r, rng_set w (random_engine self) g)
    end.

(** The outcome of a lookup by name: [NoCsrNamed] is the [ValueError]
    "No CSR named {name} found." of csr.py:30 and csr.py:36. *)
Inductive named (A : Type) :=
| Found (a : A)
| NoCsrNamed (name : string).
Arguments Found {A} a.
Arguments NoCsrNamed {A} name.

(** [CSRRegisters.add_csr] *)
Definition add_csr (self : CSRRegisters) (name description : string)
    (address : Z) : CSRRegisters :=
  {| registers := dict_set (registers self) (Py.upper name)
                           (mkCSRRegister name description address);
     random_engine := random_engine self |}.

(** [CSRRegisters.remove_csr] *)
Definition remove_csr (self : CSRRegisters) (name : string)
    : named CSRRegisters :=
  if dict_mem (registers self) (Py.upper name) then
    Found {| registers := dict_del (registers self) (Py.upper name);
             random_engine := random_engine self |}
  else NoCsrNamed name.

(** [CSRRegisters.get_csr] *)
Definition get_csr (self : CSRRegisters) (name : string) : named CSRRegister :=
  match dict_get (registers self) (Py.upper name) with
  | Some csr => Found csr
  | None => NoCsrNamed name
  end.

End csr.

(* ================================================================= *)
(** ** riscv/label.py *)

Module label.

Record Label := mkLabel {
  name : string;
  address : option Z;
  comment : option string
}.

(** [Label.is_valid_name]; [name[0]] raises on the empty string. *)
Definition is_valid_name (name : string) : result bool :=
  match name with
  | EmptyString => Err IndexError
  | String c _ => Ok (negb (Py.is_digit_char c))
  end.

Definition Label_init (name : string) (address : option Z)
    (comment : option string) : result Label :=
  match is_valid_name name with
  | Err e => Err e
  | Ok false => Err (InvalidLabel name)
  | Ok true => Ok {| name := name; address := address; comment := comment |}
  end.

(** [Label.__str__] *)
Definition Label_str (l : Label) : string := name l.

End label.

(* ================================================================= *)
(** ** riscv/instruction.py *)

(** The Python values handed to [generate]: objects of the repository's
    classes, [int], [str], [None], and tuples of those. *)
Inductive atom :=
| Reg (a : ref)
| Csr (c : csr.CSRRegister)
| Lbl (l : label.Label)
| Int (z : Z)
| Str (s : string)
| PyNone.

Inductive operand :=
| Atom (v : atom)
| Tuple (items : list atom).

(** [str(v)], as the f-string of the base-offset operand formats it. *)
Definition str (w : World) (v : atom) : string :=
  match v with
  | Reg a => Register_str (heap w a)
  | Csr c => csr.CSRRegister_str c
  | Lbl l => label.Label_str l
  | Int z => Py.str_int z
  | Str s => s
  | PyNone => "None"
  end.

(** [Label.__repr__] formats [hex(self.address)], which raises on a label
    without address.  [repr(v)] of the other values raises nothing. *)
Definition atom_repr_raises (v : atom) : bool :=
  match v with
  | Lbl l => match label.address l with
             | None => true
             | Some _ => false
             end
  | _ => false
  end.

(** Whether [repr(operand)] raises: a tuple prints the [repr] of its
    items. *)
Definition repr_raises (operand : operand) : bool :=
  match operand with
  | Atom v => atom_repr_raises v
  | Tuple items => existsb atom_repr_raises items
  end.

(** Whether [str(operand)] raises: [str] of a label is its name, [str] of
    a tuple is its [repr]. *)
Definition str_raises (operand : operand) : bool :=
  match operand with
  | Atom _ => false
  | Tuple items => existsb atom_repr_raises items
  end.

Module instruction.

Inductive InstructionFormat :=
| R | I | B | U | J | FR | CSR_R | CSR_I | LOAD_STORE.

(** [InstructionFormat.value] *)
Definition value (f : InstructionFormat) : list OperandType :=
  match f with
  | R => [REGISTER; REGISTER; REGISTER]
  | I => [REGISTER; REGISTER; IMMEDIATE]
  | B => [REGISTER; REGISTER; LABEL]
  | U => [REGISTER; IMMEDIATE]
  | J => [REGISTER; LABEL]
  | FR => [FREGISTER; FREGISTER; FREGISTER]
  | CSR_R => [REGISTER; CSR; REGISTER]
  | CSR_I => [REGISTER; CSR; IMMEDIATE]
  | LOAD_STORE => [REGISTER; BASE_OFFSET]
  end.

Definition InstructionFormat_eqb (a b : InstructionFormat) : bool :=
  match a, b with
  | R, R | I, I | B, B | U, U | J, J | FR, FR
  | CSR_R, CSR_R | CSR_I, CSR_I | LOAD_STORE, LOAD_STORE => true
  | _, _ => false
  end.

Record InstructionDefinition := mkInstructionDefinition {
  mnemonic : string;
  format : InstructionFormat;
  extension : string
}.

(** [raise ValueError(f"Expected ... for operand {i+1} but got {operand}.")]:
    the message is formatted first, and formatting the operand may raise. *)
Definition mismatch (i : nat) (expected_type : OperandType)
    (operand : operand) : result string :=
  if str_raises operand then Err TypeError
  else Err (OperandTypeMismatch (i + 1) expected_type).

(** One iteration of the loop of [generate]: the branch for
    [expected_type], on the operand at index [i]. *)
Definition format_operand (w : World) (i : nat) (expected_type : OperandType)
    (operand : operand) : result string :=
  match expected_type with
  | REGISTER =>
      match operand with
      | Atom (Reg a) =>
          if RegisterType_eqb (type (heap w a)) X then Ok (abi_name (heap w a))
          else mismatch i REGISTER operand
      | _ => mismatch i REGISTER operand
      end
  | FREGISTER =>
      match operand with
      | Atom (Reg a) =>
          if RegisterType_eqb (type (heap w a)) F then Ok (abi_name (heap w a))
          else mismatch i FREGISTER operand
      | _ => mismatch i FREGISTER operand
      end
  | CSR =>
      match operand with
      | Atom (Csr c) => Ok (csr.name c)
      | _ => mismatch i CSR operand
      end
  | LABEL =>
      match operand with
      | Atom (Lbl l) => Ok (label.name l)
      | _ => mismatch i LABEL operand
      end
  | IMMEDIATE =>
      match operand with
      | Atom (Int z) => Ok (Py.hex z)
      | _ => mismatch i IMMEDIATE operand
      end
  | BASE_OFFSET =>
      match operand with
      | Tuple [base_register; offset] =>
          match base_register with
          | Reg a => Ok (str w offset ++ "(" ++ abi_name (heap w a) ++ ")")%string
          | _ => Err (AttributeError "abi_name")
          end
      | Tuple items => Err (UnpackError 2 (length items))
      | Atom _ => mismatch i BASE_OFFSET operand
      end
  end.

(** [for i, operand in enumerate(operands)] *)
Fixpoint generate_loop (w : World) (fmt : list OperandType) (i : nat)
    (operands : list operand) (formatted_operands : list string)
    : result (list string) :=
  match operands with
  | [] => Ok formatted_operands
  | operand :: rest =>
      match nth_error fmt i with
      | None => Err IndexError
      | Some expected_type =>
          match format_operand w i expected_type operand with
          | Err e => Err e
          | Ok s => generate_loop w fmt (S i) rest (formatted_operands ++ [s])
          end
      end
  end.

(** [InstructionDefinition.generate] *)
Definition generate (w : World) (self : InstructionDefinition)
    (operands : list operand) : result string :=
  if negb (Nat.eqb (length operands) (length (value (format self)))) then
    Err (ArityMismatch (length (value (format self))) (length operands))
  else
    match generate_loop w (value (format self)) 0 operands [] with
    | Err e => Err e
    | Ok formatted_operands =>
        Ok (Py.lower (mnemonic self) ++ " " ++ Py.join ", " formatted_operands)%string
    end.

Record InstructionSet := mkInstructionSet {
  instructions : dict InstructionDefinition;
  random_engine : engine
}.

Definition default_instructions : dict InstructionDefinition :=
  dict_of
    [("ADD", mkInstructionDefinition "ADD" R "I");
     ("XOR", mkInstructionDefinition "XOR" R "I");
     ("ADDI", mkInstructionDefinition "ADDI" I "I");
     ("SW", mkInstructionDefinition "SW" LOAD_STORE "I");
     ("BEQ", mkInstructionDefinition "BEQ" B "I");
     ("LUI", mkInstructionDefinition "LUI" U "I");
     ("JAL", mkInstructionDefinition "JAL" J "I");
     ("FADD.S", mkInstructionDefinition "FADD.S" FR "F");
     ("CSRRW", mkInstructionDefinition "CSRRW" CSR_R "I");
     ("CSRRCI", mkInstructionDefinition "CSRRCI" CSR_I "I");
     ("LW", mkInstructionDefinition "LW" LOAD_STORE "I")].

(** [InstructionSet.__init__]: [instructions or self._default_instructions()] *)
Definition InstructionSet_init (instructions : option (dict InstructionDefinition))
    (random_engine : option engine) : InstructionSet :=
  {| instructions := match instructions with
                     | Some (kv :: d) => kv :: d
                     | _ => default_instructions
                     end;
     random_engine := engine_or_module random_engine |}.

(** [not s or x == s] for an optional string argument *)
Definition unset_or_equal (s : option string) (x : string) : bool :=
  match s with
  | None => true
  | Some s => String.eqb s "" || String.eqb x s
  end.

(** [InstructionSet.filter]: the result is built without an engine. *)
Definition filter (self : InstructionSet) (extension mnemonic : option string)
    (format : option InstructionFormat) : InstructionSet :=
  let filtered_instructions :=
    dict_of
      (List.filter
         (fun instr =>
            unset_or_equal extension (instruction.extension (snd instr))
            && unset_or_equal mnemonic (instruction.mnemonic (snd instr))
            && match format with
               | None => true
               | Some f => InstructionFormat_eqb (instruction.format (snd instr)) f
               end)
         (instructions self)) in
  InstructionSet_init (Some filtered_instructions) None.

(** [InstructionSet.pick_random_instruction] *)
Definition pick_random_instruction (self : InstructionSet)
    (extension : option string) (format : option InstructionFormat)
    (specific_list : option (list string))
    : M (option InstructionDefinition) :=
  fun w =>
    let available_instructions :=
      match specific_list with
      | Some (m :: l) =>
          dict_of
            (flat_map (fun instr => match dict_get (instructions self) instr with
                                    | Some d => [(instr, d)]
                                    | None => []
                                    end) (m :: l))
      | _ => instructions (filter self extension None format)
      end in
    match available_instructions with
    | [] => (Ok None, w)
    | _ =>
        match choice (rng w (random_engine self)) (values available_instructions) with
        | (Ok d, g) => (Ok (Some d), rng_set w (random_engine self) g)
        | (Err e, g) => (Err e, rng_set w (random_engine self) g)
        end
    end.

End instruction.

(* ================================================================= *)
(** ** riscv/assembler.py *)

Module assembler.

Record Assembler := mkAssembler {
  random_engine : engine;
  isa : instruction.InstructionSet;
  registers : Registers;
  csrs : csr.CSRRegisters;
  code : list string;
  labels : dict label.Label
}.

(** [random.Random(seed)]: a new generator object, in the state [seeded]
    that the library derives from the seed. *)
Definition new_Random (seeded : Random) : M engine :=
  fun w =>
    let e := Random_obj (next_engine w) in
    (Ok e,
     {| heap := heap w;
        next := next w;
        rng := fun e' => if engine_eqb e' e then seeded else rng w e';
        next_engine := S (next_engine w) |}).

(** [Assembler.__init__]; [seeded] is the state of [random.Random(seed)]. *)
Definition Assembler_init (seeded : Random) : M Assembler :=
  e <- new_Random seeded ;;
  regs <- Registers_init None (Some e) ;;
  ret {| random_engine := e;
         isa := instruction.InstructionSet_init None (Some e);
         registers := regs;
         csrs := csr.CSRRegisters_init (Some e);
         code := [];
         labels := [] |}.

Definition append_code (self : Assembler) (line : string) : Assembler :=
  {| random_engine := random_engine self; isa := isa self;
     registers := registers self; csrs := csrs self;
     code := code self ++ [line]; labels := labels self |}.

Definition set_label (self : Assembler) (k : string) (l : label.Label) : Assembler :=
  {| random_engine := random_engine self; isa := isa self;
     registers := registers self; csrs := csrs self;
     code := code self; labels := dict_set (labels self) k l |}.

(** The [except] clause of [add_instruction]: the message formats the
    tuple of operands, hence the [repr] of each, before the [ValueError]
    is raised. *)
Definition reraise {A} (operands : list operand) (e : exn) : M A :=
  fun w =>
    if existsb repr_raises operands then (Err TypeError, w)
    else (Err (AddInstructionError e), w).

(** [Assembler.add_instruction]: every exception is raised again as a
    [ValueError]. *)
Definition add_instruction (self : Assembler) (instruction : string)
    (operands : list operand) : M Assembler :=
  fun w =>
    match dict_get (instruction.instructions (isa self)) (Py.upper instruction) with
    | None => reraise operands (KeyError (Py.upper instruction)) w
    | Some d =>
        match instruction.generate w d operands with
        | Ok instr_str => (Ok (append_code self instr_str), w)
        | Err e => reraise operands e w
        end
    end.

(** [Assembler.define_label] *)
Definition define_label (self : Assembler) (label_name : string)
    : M (label.Label * Assembler) :=
  fun w =>
    if negb (dict_mem (labels self) label_name) then
      match label.Label_init label_name None None with
      | Ok l => (Ok (l, set_label self label_name l), w)
      | Err e => (Err e, w)
      end
    else (Err (DuplicateLabel label_name), w).

(** [Assembler.add_label] *)
Definition add_label (self : Assembler) (label_name : string)
    : M (label.Label * Assembler) :=
  self' <- (if negb (dict_mem (labels self) label_name)
            then la <- define_label self label_name ;; ret (snd la)
            else ret self) ;;
  match dict_get (labels self') label_name with
  | Some l => ret (l, append_code self' (label.Label_str l ++ ":"))
  | None => raise (KeyError label_name)
  end.

(** [Assembler.generate_random_operand].  The label number comes from
    [random.randint], the generator of the module, not from
    [self.random_engine]. *)
Definition generate_random_operand (self : Assembler)
    (operand_type : OperandType) : M (operand * Assembler) :=
  match operand_type with
  | REGISTER =>
      a <- pick_register (registers self) (Some X) None (Some false) None false ;;
      ret (Atom (Reg a), self)
  | FREGISTER =>
      a <- pick_register (registers self) (Some F) None (Some false) None false ;;
      ret (Atom (Reg a), self)
  | CSR =>
      c <- csr.pick_random_csr (csrs self) ;;
      ret (Atom (Csr c), self)
  | IMMEDIATE =>
      fun w =>
        let (z, g) := randint (rng w (random_engine self)) 0 0xFFFFFFFF in
        (Ok (Atom (Int z), self), rng_set w (random_engine self) g)
  | LABEL =>
      fun w =>
        let (z, g) := randint (rng w random_module) 0 1000 in
        match define_label self ("label_" ++ Py.str_int z) (rng_set w random_module g) with
        | (Ok (l, self'), w') => (Ok (Atom (Lbl l), self'), w')
        | (Err e, w') => (Err e, w')
        end
  | BASE_OFFSET =>
      a <- pick_register (registers self) (Some X) None (Some false) None false ;;
      fun w =>
        let (z, g) := randint (rng w (random_engine self)) 0 0xFFFFFFFF in
        (Ok (Tuple [Reg a; Int z], self), rng_set w (random_engine self) g)
  end.

(** [Assembler.add_comment] *)
Definition add_comment (self : Assembler) (comment : string) : Assembler :=
  append_code self ("# " ++ comment).

(** What [Assembler.write_to_file] writes. *)
Definition file_contents (self : Assembler) : string :=
  String.concat "" (map (fun line => line ++ newline)%string (code self)).

End assembler.

(* ================================================================= *)
(** ** The vocabulary of the specification *)

(** A pool as the data model describes it: a mapping (distinct keys) from
    the architectural name of a register to that register. *)
Definition pool_ok (w : World) (P : Registers) : Prop :=
  NoDup (keys (registers P))
  /\ Forall (fun kv => fst kv = name (heap w (snd kv))) (registers P).

(** An optional predicate holds when it is absent or when its test does. *)
Definition supplied {A} (p : option A) (test : A -> bool) : bool :=
  match p with
  | None => true
  | Some v => test v
  end.

(** The conjunction of the supplied predicates on bank, save class,
    reserved and in-use. *)
Definition satisfies (w : World) (t : option RegisterType)
    (s : option RegisterSaveType) (r u : option bool) (a : ref) : bool :=
  supplied t (fun t => RegisterType_eqb (type (heap w a)) t)
  && supplied s (fun s => RegisterSaveType_eqb (saved_by (heap w a)) s)
  && supplied r (fun r => Bool.eqb (is_reserved (heap w a)) r)
  && supplied u (fun u => Bool.eqb (is_in_use (heap w a)) u).

(** The candidates of a filter call. *)
Definition candidates (w : World) (P : Registers) (t : option RegisterType)
    (s : option RegisterSaveType) (r u : option bool) : list ref :=
  List.filter (satisfies w t s r u) (values (registers P)).

(** The store after a successful pick of [a] through engine [e]. *)
Definition after_pick (w : World) (e : engine) (a : ref) (reserve : bool)
    : World :=
  let w := rng_set w e (advance (rng w e)) in
  let w := set_is_in_use w a true in
  if reserve then set_is_reserved w a true else w.

(** A predicate assignment, and two assignments over independent fields. *)
Record criteria := mkCriteria {
  by_type : option RegisterType;
  by_saved_by : option RegisterSaveType;
  by_is_reserved : option bool;
  by_is_in_use : option bool
}.

Definition filter_by (w : World) (P : Registers) (c : criteria)
    : result Registers :=
  filter w P (by_type c) (by_saved_by c) (by_is_reserved c) (by_is_in_use c).

Definition satisfies_all (w : World) (c : criteria) (a : ref) : bool :=
  satisfies w (by_type c) (by_saved_by c) (by_is_reserved c) (by_is_in_use c) a.

Definition apart {A} (x y : option A) : Prop := x = None \/ y = None.

Definition independent (c1 c2 : criteria) : Prop :=
  apart (by_type c1) (by_type c2)
  /\ apart (by_saved_by c1) (by_saved_by c2)
  /\ apart (by_is_reserved c1) (by_is_reserved c2)
  /\ apart (by_is_in_use c1) (by_is_in_use c2).

Definition either {A} (x y : option A) : option A :=
  match x with
  | Some _ => x
  | None => y
  end.

Definition combined (c1 c2 : criteria) : criteria :=
  {| by_type := either (by_type c1) (by_type c2);
     by_saved_by := either (by_saved_by c1) (by_saved_by c2);
     by_is_reserved := either (by_is_reserved c1) (by_is_reserved c2);
     by_is_in_use := either (by_is_in_use c1) (by_is_in_use c2) |}.

(** One filter call on the result of another. *)
Definition and_then (first : result Registers)
    (second : Registers -> result Registers) : result Registers :=
  match first with
  | Ok G => second G
  | Err e => Err e
  end.

(** A decision procedure for [pool_ok]. *)
Fixpoint distinct (l : list string) : bool :=
  match l with
  | [] => true
  | k :: t => negb (existsb (String.eqb k) t) && distinct t
  end.

Definition pool_okb (w : World) (P : Registers) : bool :=
  distinct (keys (registers P))
  && forallb (fun kv => String.eqb (fst kv) (name (heap w (snd kv))))
             (registers P).

(** The default register file, built in an empty store whose generators
    all draw 0, 1, 2, ... *)
Definition counting : Random := {| draws := fun i => Z.of_nat i; cursor := 0 |}.

Definition boot : result Registers * World :=
  Registers_init None None (empty_world (fun _ => counting)).

Definition default_pool : Registers :=
  match fst boot with
  | Ok P => P
  | Err _ => {| registers := []; random_engine := random_module |}
  end.

Definition default_world : World := snd boot.

(** The list [pick_register] draws from, given the filtered pool. *)
Definition regs_list (w : World) (regs : Registers) : list ref :=
  match filter w regs None None None (Some false) with
  | Ok unused_regs => values (registers unused_regs)
  | Err _ => values (registers regs)
  end.

(** The registers of a list that are not in use. *)
Definition unused (w : World) (l : list ref) : list ref :=
  List.filter (fun a => negb (is_in_use (heap w a))) l.

(** [pick_register()] when no bank is asked for, [pick_register(type=t)]
    otherwise. *)
Definition pick_register_default (P : Registers) (bank : option RegisterType)
    : M ref :=
  match bank with
  | None => pick_register_noargs P
  | Some t => pick_register_of_type P t
  end.

(** Register [a] belongs to the requested bank, if one is requested. *)
Definition of_bank (w : World) (bank : option RegisterType) (a : ref) : Prop :=
  match bank with
  | None => True
  | Some t => type (heap w a) = t
  end.

(** The view of the default pool on its integer bank. *)
Definition default_view : Registers :=
  match filter default_world default_pool (Some X) None None None with
  | Ok G => G
  | Err _ => default_pool
  end.

(** The language of [^(x|f)[0-9]+$]: an [x] or an [f], then one decimal
    digit or more. *)
Definition is_decimal_digit (c : ascii) : Prop :=
  (nat_of_ascii "0" <= nat_of_ascii c <= nat_of_ascii "9")%nat.

Definition is_register_name (s : string) : Prop :=
  exists c digits,
    s = String c digits
    /\ (c = "x"%char \/ c = "f"%char)
    /\ digits <> EmptyString
    /\ Forall is_decimal_digit (list_ascii_of_string digits).

(** The characters that [str.isdigit] accepts among the code points below
    256: the decimal digits and the superscripts two, three and one. *)
Definition is_python_digit (c : ascii) : Prop :=
  is_decimal_digit c
  \/ nat_of_ascii c = 178 \/ nat_of_ascii c = 179 \/ nat_of_ascii c = 185.

(** An [x] or an [f], then one character or more that [str.isdigit]
    accepts. *)
Definition is_accepted_name (s : string) : Prop :=
  exists c digits,
    s = String c digits
    /\ (c = "x"%char \/ c = "f"%char)
    /\ digits <> EmptyString
    /\ Forall is_python_digit (list_ascii_of_string digits).

Definition is_ascii_text (s : string) : Prop :=
  Forall (fun c => (nat_of_ascii c < 128)%nat) (list_ascii_of_string s).

(** The text made of [x] and of the superscript two, U+00B2. *)
Definition x_superscript_two : string :=
  String "x" (String (ascii_of_nat 178) EmptyString).

(** The operand contract of [render]: which value each operand kind
    accepts, and the text it is rendered to. *)
Inductive renders (w : World) : OperandType -> operand -> string -> Prop :=
| renders_register a :
    type (heap w a) = X ->
    renders w REGISTER (Atom (Reg a)) (abi_name (heap w a))
| renders_fregister a :
    type (heap w a) = F ->
    renders w FREGISTER (Atom (Reg a)) (abi_name (heap w a))
| renders_csr c :
    renders w CSR (Atom (Csr c)) (csr.name c)
| renders_label l :
    renders w LABEL (Atom (Lbl l)) (label.name l)
| renders_immediate z :
    (0 <= z)%Z ->
    renders w IMMEDIATE (Atom (Int z)) ("0x" ++ Py.hex_digits (Z.to_N z))%string
| renders_negative_immediate z :
    (z < 0)%Z ->
    renders w IMMEDIATE (Atom (Int z))
            ("-0x" ++ Py.hex_digits (Z.to_N (- z)))%string
| renders_base_offset a z :
    renders w BASE_OFFSET (Tuple [Reg a; Int z])
            (Py.str_int z ++ "(" ++ abi_name (heap w a) ++ ")")%string.

(** Operand by operand, along the format. *)
Inductive renders_all (w : World)
  : list OperandType -> list operand -> list string -> Prop :=
| renders_nil : renders_all w [] [] []
| renders_cons k v s ks vs ss :
    renders w k v s -> renders_all w ks vs ss ->
    renders_all w (k :: ks) (v :: vs) (s :: ss).

(** The registers of the unit tests, [Register("x10", type=X)] and
    [Register("x11", type=X)]: no ABI alias is given. *)
Definition raw_registers : result (ref * ref) * World :=
  (x10 <- new_Register "x10" None X Caller false false ;;
   x11 <- new_Register "x11" None X Caller false false ;;
   ret (x10, x11)) (empty_world (fun _ => counting)).

Definition raw_world : World := snd raw_registers.

Definition ADDI : instruction.InstructionDefinition :=
  instruction.mkInstructionDefinition "ADDI" instruction.I "I".

Definition SW : instruction.InstructionDefinition :=
  instruction.mkInstructionDefinition "SW" instruction.LOAD_STORE "I".

(** A second generator, drawing 1, 2, 3, ... *)
Definition counting_from_one : Random :=
  {| draws := fun i => Z.of_nat (S i); cursor := 0 |}.

(** A generation run: [Assembler(seed)], a random integer register, a
    random label, [JAL] on the two, and the text that [write_to_file]
    writes.  [seeded] is the state of [random.Random(seed)]; [ambient] is
    the state of the generator of the [random] module when the run
    starts. *)
Definition jal_run (seeded ambient : Random) : result string :=
  fst ((a <- assembler.Assembler_init seeded ;;
        ra <- assembler.generate_random_operand a REGISTER ;;
        la <- assembler.generate_random_operand (snd ra) LABEL ;;
        a <- assembler.add_instruction (snd la) "JAL" [fst ra; fst la] ;;
        ret (assembler.file_contents a))
         (empty_world (fun _ => ambient))).

(** A second run: [Assembler(seed)], then a random instruction of the
    catalog filtered on format [R]; the mnemonic picked. *)
Definition filtered_pick_run (seeded ambient : Random)
    : result (option string) :=
  fst ((a <- assembler.Assembler_init seeded ;;
        d <- instruction.pick_random_instruction
               (instruction.filter (assembler.isa a) None None
                                   (Some instruction.R))
               None None None ;;
        ret (option_map instruction.mnemonic d))
         (empty_world (fun _ => ambient))).

(** What a catalog filter asks of a definition: an absent or empty text
    asks nothing. *)
Definition asked (s : option string) : option string :=
  match s with
  | Some EmptyString => None
  | _ => s
  end.

Definition selected (extension mnemonic : option string)
    (format : option instruction.InstructionFormat)
    (d : instruction.InstructionDefinition) : bool :=
  supplied (asked extension) (String.eqb (instruction.extension d))
  && supplied (asked mnemonic) (String.eqb (instruction.mnemonic d))
  && supplied format
       (instruction.InstructionFormat_eqb (instruction.format d)).

(** main.py, [tc_03]: the comprehension
    [[assembler.generate_random_operand(op_type) for op_type in kinds]]. *)
Fixpoint generate_operands (self : assembler.Assembler)
    (kinds : list OperandType) : M (list operand * assembler.Assembler) :=
  match kinds with
  | [] => ret ([], self)
  | k :: ks =>
      va <- assembler.generate_random_operand self k ;;
      rest <- generate_operands (snd va) ks ;;
      ret (fst va :: fst rest, snd rest)
  end.

(** Two stores hold the same registers, flags apart. *)
Definition same_identity (w w' : World) : Prop :=
  forall a, name (heap w' a) = name (heap w a)
            /\ abi_name (heap w' a) = abi_name (heap w a)
            /\ type (heap w' a) = type (heap w a)
            /\ saved_by (heap w' a) = saved_by (heap w a).

(** An assembler built by [Assembler(seed)] and the operands it generates
    for [ADDI]. *)
Definition demo_start : result assembler.Assembler * World :=
  assembler.Assembler_init counting (empty_world (fun _ => counting)).

Definition demo_assembler : assembler.Assembler :=
  match fst demo_start with
  | Ok a => a
  | Err _ =>
      assembler.mkAssembler random_module
        (instruction.InstructionSet_init None None) default_pool
        (csr.CSRRegisters_init None) [] []
  end.

Definition demo_run : result (list operand * assembler.Assembler) * World :=
  generate_operands demo_assembler
    (instruction.value (instruction.format ADDI)) (snd demo_start).

Definition demo_operands : list operand :=
  match fst demo_run with
  | Ok oa => fst oa
  | Err _ => []
  end.

Definition demo_assembler_after : assembler.Assembler :=
  match fst demo_run with
  | Ok oa => snd oa
  | Err _ => demo_assembler
  end.

(** main.py, one iteration of the loop of [tc_03]: pick an instruction,
    generate an operand for each kind of its format, add the instruction.
    [chosen_instr.format] raises on [None]. *)
Definition tc_03_step (self : assembler.Assembler) : M assembler.Assembler :=
  chosen_instr <- instruction.pick_random_instruction (assembler.isa self)
                    None None None ;;
  match chosen_instr with
  | None => raise (AttributeError "format")
  | Some d =>
      oa <- generate_operands self (instruction.value (instruction.format d)) ;;
      assembler.add_instruction (snd oa) (instruction.mnemonic d) (fst oa)
  end.

(** A catalog as [_default_instructions] builds it: not empty, with
    distinct keys, each the upper-case mnemonic of its definition. *)
Definition catalog_keyed (isa : instruction.InstructionSet) : Prop :=
  instruction.instructions isa <> []
  /\ NoDup (keys (instruction.instructions isa))
  /\ Forall (fun kv => fst kv = Py.upper (instruction.mnemonic (snd kv)))
            (instruction.instructions isa).

(** What [generate_random_operand] hands back for each operand kind, in
    the store it leaves. *)
Inductive generated (w : World) (self : assembler.Assembler)
  : OperandType -> operand -> Prop :=
| generated_register a :
    In a (values (registers (assembler.registers self))) ->
    type (heap w a) = X ->
    generated w self REGISTER (Atom (Reg a))
| generated_fregister a :
    In a (values (registers (assembler.registers self))) ->
    type (heap w a) = F ->
    generated w self FREGISTER (Atom (Reg a))
| generated_csr c :
    In c (values (csr.registers (assembler.csrs self))) ->
    generated w self CSR (Atom (Csr c))
| generated_immediate z :
    (0 <= z <= 0xFFFFFFFF)%Z ->
    generated w self IMMEDIATE (Atom (Int z))
| generated_label n :
    (0 <= n <= 1000)%Z ->
    generated w self LABEL
      (Atom (Lbl (label.mkLabel ("label_" ++ Py.str_int n) None None)))
| generated_base_offset a z :
    In a (values (registers (assembler.registers self))) ->
    type (heap w a) = X ->
    (0 <= z <= 0xFFFFFFFF)%Z ->
    generated w self BASE_OFFSET (Tuple [Reg a; Int z]).

(** The register pool of an assembler built by [Assembler(seed)]: its
    engine is the [random.Random] instance that the assembler created and
    injected, not the [random] module.  [injected_view] is the view of that
    pool on the integer bank. *)
Definition injected_pool : Registers := assembler.registers demo_assembler.

Definition injected_world : World := snd demo_start.

Definition injected_view : Registers :=
  match filter injected_world injected_pool (Some X) None None None with
  | Ok G => G
  | Err _ => injected_pool
  end.

(* ================================================================= *)
(** ** Dictionaries: lemmas *)

Section DictFacts.
Context {V : Type}.
Implicit Types (d l : list (string * V)) (k : string) (v : V).

Lemma dict_set_fresh d k v :
  ~ In k (keys d) -> dict_set d k v = d ++ [(k, v)].
Proof.
  induction d as [|[k' v'] d IH]; simpl; intros Hk; [reflexivity|].
  destruct (String.eqb_spec k' k) as [->|Hne].
  - exfalso; apply Hk; now left.
  - f_equal. apply IH. intros Hin; apply Hk; now right.
Qed.

Lemma fold_dict_set_nodup l : forall d,
  NoDup (keys (d ++ l)) ->
  fold_left (fun d kv => dict_set d (fst kv) (snd kv)) l d = d ++ l.
Proof.
  induction l as [|[k v] l IH]; simpl; intros d Hnd.
  - now rewrite app_nil_r.
  - rewrite dict_set_fresh.
    + rewrite IH; rewrite <- app_assoc; [reflexivity | exact Hnd].
    + unfold keys in *. rewrite map_app in Hnd. simpl in Hnd.
      apply NoDup_remove_2 in Hnd. intros Hin; apply Hnd.
      apply in_or_app; now left.
Qed.

(** A comprehension over distinct keys is the list of its items. *)
Lemma dict_of_nodup l : NoDup (keys l) -> dict_of l = l.
Proof. intros H. unfold dict_of. now rewrite fold_dict_set_nodup. Qed.

Lemma dict_set_values d k v x :
  In x (values (dict_set d k v)) -> x = v \/ In x (values d).
Proof.
  induction d as [|[k' v'] d IH]; simpl.
  - intros [<-|[]]; now left.
  - destruct (String.eqb k' k); simpl.
    + intros [<-|H]; [now left | right; now right].
    + intros [<-|H]; [right; now left|].
      destruct (IH H) as [->|H']; [now left | right; now right].
Qed.

Lemma fold_dict_set_values l : forall d x,
  In x (values (fold_left (fun d kv => dict_set d (fst kv) (snd kv)) l d)) ->
  In x (values d) \/ In x (values l).
Proof.
  induction l as [|[k v] l IH]; simpl; intros d x H; [now left|].
  destruct (IH _ _ H) as [H1|H1].
  - destruct (dict_set_values _ _ _ _ H1) as [->|H2];
      [right; now left | now left].
  - right; now right.
Qed.

(** Whatever a comprehension holds was one of its items. *)
Lemma dict_of_values l x : In x (values (dict_of l)) -> In x (values l).
Proof.
  intros H. destruct (fold_dict_set_values _ _ _ H) as [[]|H']; exact H'.
Qed.

Lemma dict_set_not_nil d k v : dict_set d k v <> [].
Proof. destruct d as [|[k' v'] d]; simpl; [|destruct (String.eqb k' k)]; discriminate. Qed.

Lemma fold_dict_set_not_nil l : forall d,
  d <> [] -> fold_left (fun d kv => dict_set d (fst kv) (snd kv)) l d <> [].
Proof.
  induction l as [|kv l IH]; simpl; intros d H; [exact H|].
  apply IH, dict_set_not_nil.
Qed.

Lemma dict_of_not_nil l : l <> [] -> dict_of l <> [].
Proof.
  destruct l as [|kv l]; [congruence|]. intros _. unfold dict_of.
  cbn [fold_left]. apply fold_dict_set_not_nil, dict_set_not_nil.
Qed.

Lemma dict_get_in d k v :
  NoDup (keys d) -> (dict_get d k = Some v <-> In (k, v) d).
Proof.
  induction d as [|[k' v'] d IH]; simpl; intros Hnd.
  - split; [discriminate | tauto].
  - inversion Hnd as [|? ? Hk Hnd']; subst.
    destruct (String.eqb_spec k' k) as [->|Hne].
    + split.
      * intros [= ->]; now left.
      * intros [[= ->]|Hin]; [reflexivity|].
        exfalso; apply Hk. change k with (fst (k, v)). now apply in_map.
    + rewrite (IH Hnd'). split; [tauto|].
      intros [[= ? ?]|Hin]; [congruence | exact Hin].
Qed.

Lemma dict_get_none d k : dict_get d k = None <-> ~ In k (keys d).
Proof.
  induction d as [|[k' v'] d IH]; simpl; [tauto|].
  destruct (String.eqb_spec k' k) as [->|Hne].
  - split; [discriminate | intros H; exfalso; apply H; now left].
  - rewrite IH. tauto.
Qed.
End DictFacts.

(* ================================================================= *)
(** ** [Registers.filter]: what it computes *)

Lemma filter_filter {A} (p q : A -> bool) (l : list A) :
  List.filter q (List.filter p l) = List.filter (fun x => p x && q x) l.
Proof.
  induction l as [|x l IH]; simpl; [reflexivity|].
  destruct (p x); simpl; [destruct (q x)|]; now rewrite IH.
Qed.

Lemma keep_filter {A} (p : option A) (test : A -> ref -> bool) (l : list ref) :
  keep p test l = List.filter (fun a => supplied p (fun v => test v a)) l.
Proof.
  destruct p as [v|]; simpl; [reflexivity|].
  induction l as [|x l IH]; simpl; congruence.
Qed.

Lemma keep_chain w t s r u l :
  keep u (is_in_use_is w)
    (keep r (is_reserved_is w) (keep s (saved_by_is w) (keep t (type_is w) l)))
  = List.filter (satisfies w t s r u) l.
Proof.
  rewrite !keep_filter, !filter_filter. apply filter_ext. intros a.
  unfold satisfies, type_is, saved_by_is, is_reserved_is, is_in_use_is.
  now rewrite !andb_assoc.
Qed.

Lemma filter_unfold w P t s r u :
  filter w P t s r u =
  match candidates w P t s r u with
  | [] => Err NoMatch
  | sub =>
      Ok {| registers := dict_of (map (fun a => (name (heap w a), a)) sub);
            random_engine := random_engine P |}
  end.
Proof.
  unfold filter, candidates. rewrite keep_chain.
  now destruct (List.filter (satisfies w t s r u) (values (registers P))).
Qed.

Lemma candidates_spec w P t s r u a :
  In a (candidates w P t s r u) <->
  In a (values (registers P)) /\ satisfies w t s r u a = true.
Proof. unfold candidates. apply filter_In. Qed.

Lemma values_named (w : World) (l : list ref) :
  values (map (fun a => (name (heap w a), a)) l) = l.
Proof. unfold values. rewrite map_map. simpl. apply map_id. Qed.

Lemma keys_named (w : World) (l : list ref) :
  keys (map (fun a => (name (heap w a), a)) l) = map (fun a => name (heap w a)) l.
Proof. unfold keys. rewrite map_map. reflexivity. Qed.

(** Without any assumption on the pool: a filter fails only on an empty
    candidate list, and what it returns are candidates. *)
Lemma filter_sound w P t s r u :
  match filter w P t s r u with
  | Ok G =>
      candidates w P t s r u <> []
      /\ registers G <> []
      /\ random_engine G = random_engine P
      /\ forall a, In a (values (registers G)) -> In a (candidates w P t s r u)
  | Err e => e = NoMatch /\ candidates w P t s r u = []
  end.
Proof.
  rewrite filter_unfold. destruct (candidates w P t s r u) as [|a l] eqn:E.
  - split; reflexivity.
  - cbn [registers random_engine]. repeat split.
    + discriminate.
    + apply dict_of_not_nil. discriminate.
    + intros b Hb. apply dict_of_values in Hb. now rewrite values_named in Hb.
Qed.

Lemma NoDup_map_filter {A B} (f : A -> B) (p : A -> bool) (l : list A) :
  NoDup (map f l) -> NoDup (map f (List.filter p l)).
Proof.
  induction l as [|x l IH]; simpl; intros H; [constructor|].
  inversion H as [|? ? Hx Hl]; subst.
  destruct (p x); simpl; [|now apply IH].
  constructor; [|now apply IH].
  intros Hin. apply Hx. apply in_map_iff in Hin as (y & Hy & Hin).
  apply filter_In in Hin as [Hin _]. apply in_map_iff. now exists y.
Qed.

Lemma pool_names_nodup w P :
  pool_ok w P -> NoDup (map (fun a => name (heap w a)) (values (registers P))).
Proof.
  intros [Hk Hn]. unfold values. rewrite map_map.
  replace (map (fun x => name (heap w (snd x))) (registers P))
    with (keys (registers P)); [exact Hk|].
  unfold keys. apply map_ext_in. intros kv Hin.
  rewrite Forall_forall in Hn. now apply Hn.
Qed.

Lemma named_pool_ok w e (l : list ref) :
  NoDup (map (fun a => name (heap w a)) l) ->
  pool_ok w {| registers := map (fun a => (name (heap w a), a)) l;
              random_engine := e |}.
Proof.
  intros H. split; simpl.
  - now rewrite keys_named.
  - apply Forall_forall. intros kv Hin.
    apply in_map_iff in Hin as (a & <- & _). reflexivity.
Qed.

(** On a pool of the data model, the result holds exactly the candidates,
    in the order of the pool. *)
Lemma filter_exact w P t s r u :
  pool_ok w P ->
  filter w P t s r u =
  match candidates w P t s r u with
  | [] => Err NoMatch
  | sub => Ok {| registers := map (fun a => (name (heap w a), a)) sub;
                 random_engine := random_engine P |}
  end.
Proof.
  intros HP. rewrite filter_unfold.
  destruct (candidates w P t s r u) as [|a l] eqn:E; [reflexivity|].
  rewrite dict_of_nodup; [reflexivity|].
  rewrite keys_named, <- E. unfold candidates.
  apply NoDup_map_filter, pool_names_nodup, HP.
Qed.

Lemma filter_pool_ok w P t s r u G :
  pool_ok w P -> filter w P t s r u = Ok G ->
  pool_ok w G /\ values (registers G) = candidates w P t s r u.
Proof.
  intros HP. rewrite (filter_exact _ _ _ _ _ _ HP).
  destruct (candidates w P t s r u) as [|a l] eqn:E; [discriminate|].
  intros [= <-]. split.
  - apply (named_pool_ok w (random_engine P) (a :: l)). rewrite <- E.
    unfold candidates. apply NoDup_map_filter, pool_names_nodup, HP.
  - apply (values_named w (a :: l)).
Qed.

Lemma distinct_NoDup l : distinct l = true -> NoDup l.
Proof.
  induction l as [|k l IH]; simpl; [constructor|].
  intros H. apply andb_true_iff in H as [Hk Hl].
  constructor; [|now apply IH].
  intros Hin. apply negb_true_iff in Hk.
  assert (existsb (String.eqb k) l = true); [|congruence].
  apply existsb_exists. exists k. split; [exact Hin | apply String.eqb_refl].
Qed.

Lemma pool_okb_sound w P : pool_okb w P = true -> pool_ok w P.
Proof.
  unfold pool_okb, pool_ok. intros H. apply andb_true_iff in H as [H1 H2].
  split; [now apply distinct_NoDup|].
  apply Forall_forall. intros kv Hin.
  rewrite forallb_forall in H2. now apply String.eqb_eq, H2.
Qed.

Lemma default_pool_ok : pool_ok default_world default_pool.
Proof. apply pool_okb_sound. vm_compute. reflexivity. Qed.

(** C7.  On every pool of the data model and for every combination of
    supplied predicates on bank, save class, reserved and in-use, [filter]
    returns a pool whose registers are exactly those of the parent that
    satisfy all supplied predicates, and it raises [NoMatch] (it never
    returns an empty pool) when none does. *)
Theorem filter_exactly_the_matching_registers w P t s r u :
  pool_ok w P ->
  ((exists a, In a (values (registers P)) /\ satisfies w t s r u a = true) ->
   exists G,
     filter w P t s r u = Ok G
     /\ registers G <> []
     /\ forall a, In a (values (registers G)) <->
                  In a (values (registers P)) /\ satisfies w t s r u a = true)
  /\ ((forall a, In a (values (registers P)) -> satisfies w t s r u a = false) ->
      filter w P t s r u = Err NoMatch).
Proof.
  intros HP. split.
  - intros (a & Ha & Hs).
    assert (In a (candidates w P t s r u)) as Hc by now apply candidates_spec.
    destruct (filter w P t s r u) as [G|e] eqn:E.
    + destruct (filter_pool_ok _ _ _ _ _ _ _ HP E) as [_ Hv].
      pose proof (filter_sound w P t s r u) as Hsound. rewrite E in Hsound.
      exists G. split; [reflexivity|]. split; [apply Hsound|].
      intros b. rewrite Hv. apply candidates_spec.
    + pose proof (filter_sound w P t s r u) as Hsound. rewrite E in Hsound.
      destruct Hsound as [_ Hnil]. rewrite Hnil in Hc. destruct Hc.
  - intros Hnone. rewrite filter_unfold.
    destruct (candidates w P t s r u) as [|a l] eqn:E; [reflexivity|].
    assert (In a (candidates w P t s r u)) as Hc by (rewrite E; now left).
    apply candidates_spec in Hc as [Ha Hs]. rewrite (Hnone a Ha) in Hs.
    discriminate.
Qed.

Lemma filter_exactly_the_matching_registers_witness :
  exists G,
    filter default_world default_pool (Some X) (Some Callee) (Some false) None
    = Ok G
    /\ registers G <> []
    /\ forall a, In a (values (registers G)) <->
                 In a (values (registers default_pool))
                 /\ satisfies default_world (Some X) (Some Callee) (Some false)
                      None a = true.
Proof.
  apply (proj1 (filter_exactly_the_matching_registers default_world
                  default_pool (Some X) (Some Callee) (Some false) None
                  default_pool_ok)).
  exists 8. split; vm_compute; [tauto | reflexivity].
Defined.

Lemma satisfies_combined w c1 c2 a :
  independent c1 c2 ->
  satisfies_all w (combined c1 c2) a = satisfies_all w c1 a && satisfies_all w c2 a.
Proof.
  destruct c1 as [t1 s1 r1 u1], c2 as [t2 s2 r2 u2].
  unfold independent, apart, satisfies_all, satisfies; simpl.
  intros (Ht & Hs & Hr & Hu).
  destruct Ht as [-> | ->], Hs as [-> | ->], Hr as [-> | ->], Hu as [-> | ->];
    simpl;
    repeat match goal with o : option _ |- _ => destruct o end; simpl;
    repeat match goal with |- context [?f ?x ?y] =>
             match f with
             | RegisterType_eqb => destruct (f x y)
             | RegisterSaveType_eqb => destruct (f x y)
             | Bool.eqb => destruct (f x y)
             end
           end; reflexivity.
Qed.

(** Two filter calls in a row on a pool of the data model. *)
Lemma filter_twice w P c1 c2 :
  pool_ok w P ->
  and_then (filter_by w P c1) (fun G => filter_by w G c2) =
  match List.filter (fun a => satisfies_all w c1 a && satisfies_all w c2 a)
                    (values (registers P)) with
  | [] => Err NoMatch
  | sub => Ok {| registers := map (fun a => (name (heap w a), a)) sub;
                 random_engine := random_engine P |}
  end.
Proof.
  intros HP. unfold filter_by at 1. unfold and_then.
  destruct (filter w P (by_type c1) (by_saved_by c1) (by_is_reserved c1)
              (by_is_in_use c1)) as [G|e] eqn:E.
  - destruct (filter_pool_ok _ _ _ _ _ _ _ HP E) as [HG Hv].
    pose proof (filter_sound w P (by_type c1) (by_saved_by c1)
                  (by_is_reserved c1) (by_is_in_use c1)) as Hs.
    rewrite E in Hs. destruct Hs as (_ & _ & He & _).
    unfold filter_by. rewrite (filter_exact _ _ _ _ _ _ HG).
    unfold candidates at 1. rewrite Hv. unfold candidates.
    rewrite filter_filter, He. reflexivity.
  - pose proof (filter_sound w P (by_type c1) (by_saved_by c1)
                  (by_is_reserved c1) (by_is_in_use c1)) as Hs.
    rewrite E in Hs. destruct Hs as [-> Hnil].
    rewrite <- filter_filter. unfold candidates in Hnil.
    replace (List.filter (satisfies_all w c1) (values (registers P)))
      with (@nil ref) by (symmetry; exact Hnil).
    reflexivity.
Qed.

(** C9.  On every pool of the data model and for every two predicate
    assignments over independent fields, filtering by one assignment and
    then by the other gives, in either order, the result of the single
    filter call with the combined predicates: the same registers in the
    same pool, or the same [NoMatch] failure. *)
Theorem filter_twice_is_filter_combined w P c1 c2 :
  pool_ok w P ->
  independent c1 c2 ->
  and_then (filter_by w P c1) (fun G => filter_by w G c2)
    = filter_by w P (combined c1 c2)
  /\ and_then (filter_by w P c2) (fun G => filter_by w G c1)
    = filter_by w P (combined c1 c2).
Proof.
  intros HP Hind.
  assert (filter_by w P (combined c1 c2) =
          match List.filter (fun a => satisfies_all w c1 a && satisfies_all w c2 a)
                            (values (registers P)) with
          | [] => Err NoMatch
          | sub => Ok {| registers := map (fun a => (name (heap w a), a)) sub;
                         random_engine := random_engine P |}
          end) as Hone.
  { unfold filter_by. rewrite (filter_exact _ _ _ _ _ _ HP). unfold candidates.
    rewrite (filter_ext (satisfies w _ _ _ _)
               (fun a => satisfies_all w c1 a && satisfies_all w c2 a));
      [reflexivity|].
    intros a. now apply (satisfies_combined w c1 c2 a). }
  split.
  - now rewrite filter_twice, Hone.
  - rewrite filter_twice, Hone by exact HP.
    rewrite (filter_ext (fun a => satisfies_all w c2 a && satisfies_all w c1 a)
               (fun a => satisfies_all w c1 a && satisfies_all w c2 a));
      [reflexivity|].
    intros a. apply andb_comm.
Qed.

Lemma filter_twice_is_filter_combined_witness :
  let c1 := mkCriteria (Some X) None None None in
  let c2 := mkCriteria None (Some Caller) (Some false) None in
  and_then (filter_by default_world default_pool c1)
           (fun G => filter_by default_world G c2)
    = filter_by default_world default_pool (combined c1 c2)
  /\ and_then (filter_by default_world default_pool c2)
              (fun G => filter_by default_world G c1)
    = filter_by default_world default_pool (combined c1 c2).
Proof.
  apply (filter_twice_is_filter_combined default_world default_pool
           (mkCriteria (Some X) None None None)
           (mkCriteria None (Some Caller) (Some false) None) default_pool_ok).
  unfold independent, apart; simpl. tauto.
Defined.

(* ================================================================= *)
(** ** [Registers.pick_register] *)

Lemma choice_in {A} (g : Random) (l : list A) :
  l <> [] -> exists x, choice g l = (Ok x, advance g) /\ In x l.
Proof.
  intros Hl. destruct l as [|y l]; [congruence|].
  unfold choice, randbelow.
  set (n := Z.of_nat (length (y :: l))).
  assert (0 < n)%Z as Hn by (subst n; simpl length; lia).
  pose proof (Z.mod_pos_bound (draws g (cursor g)) n Hn) as Hk.
  destruct (nth_error (y :: l) (Z.to_nat (draws g (cursor g) mod n))) as [x|] eqn:E.
  - exists x. split; [reflexivity|]. eapply nth_error_In, E.
  - apply nth_error_None in E. subst n. simpl length in *. lia.
Qed.

Section StoreFacts.
Variables (w : World) (a : ref).

Lemma heap_set_is_in_use_same v :
  heap (set_is_in_use w a v) a =
  {| name := name (heap w a); abi_name := abi_name (heap w a);
     type := type (heap w a); saved_by := saved_by (heap w a);
     is_reserved := is_reserved (heap w a); is_in_use := v |}.
Proof. simpl. now rewrite Nat.eqb_refl. Qed.

Lemma heap_set_is_reserved_same v :
  heap (set_is_reserved w a v) a =
  {| name := name (heap w a); abi_name := abi_name (heap w a);
     type := type (heap w a); saved_by := saved_by (heap w a);
     is_reserved := v; is_in_use := is_in_use (heap w a) |}.
Proof. simpl. now rewrite Nat.eqb_refl. Qed.

Lemma heap_set_is_in_use_other v b :
  b <> a -> heap (set_is_in_use w a v) b = heap w b.
Proof. intros H. simpl. apply Nat.eqb_neq in H. now rewrite H. Qed.

Lemma heap_set_is_reserved_other v b :
  b <> a -> heap (set_is_reserved w a v) b = heap w b.
Proof. intros H. simpl. apply Nat.eqb_neq in H. now rewrite H. Qed.
End StoreFacts.

Lemma engine_eqb_refl e : engine_eqb e e = true.
Proof. destruct e; simpl; [reflexivity | apply Nat.eqb_refl]. Qed.

Lemma engine_eqb_neq e e' : e' <> e -> engine_eqb e' e = false.
Proof.
  destruct e, e'; simpl; try congruence. intros H.
  apply Nat.eqb_neq. congruence.
Qed.

(** What a successful pick leaves in the store. *)
Lemma after_pick_spec w e a reserve :
  let w' := after_pick w e a reserve in
  is_in_use (heap w' a) = true
  /\ is_reserved (heap w' a) = (reserve || is_reserved (heap w a))
  /\ name (heap w' a) = name (heap w a)
  /\ abi_name (heap w' a) = abi_name (heap w a)
  /\ type (heap w' a) = type (heap w a)
  /\ saved_by (heap w' a) = saved_by (heap w a)
  /\ (forall b, b <> a -> heap w' b = heap w b)
  /\ rng w' e = advance (rng w e)
  /\ (forall e', e' <> e -> rng w' e' = rng w e').
Proof.
  unfold after_pick. destruct reserve; simpl; rewrite ?Nat.eqb_refl; simpl;
    rewrite ?engine_eqb_refl;
    repeat split; try reflexivity;
    try (intros b Hb; apply Nat.eqb_neq in Hb; now rewrite ?Hb);
    try (intros e' He; now rewrite (engine_eqb_neq _ _ He)).
Qed.

Lemma regs_list_incl w regs :
  registers regs <> [] ->
  regs_list w regs <> []
  /\ forall a, In a (regs_list w regs) -> In a (values (registers regs)).
Proof.
  intros Hne. unfold regs_list.
  pose proof (filter_sound w regs None None None (Some false)) as Hs.
  destruct (filter w regs None None None (Some false)) as [un|e].
  - destruct Hs as (_ & Hun & _ & Hin). split.
    + unfold values. destruct (registers un); [congruence | discriminate].
    + intros a Ha. apply Hin, candidates_spec in Ha. tauto.
  - split; [|tauto]. unfold values.
    destruct (registers regs); [congruence | discriminate].
Qed.

(** [pick_register] succeeds as soon as the filter has a candidate; it
    fails, leaving the store as it was, when it has none. *)
Lemma pick_register_run w P t s r u reserve :
  match filter w P t s r u with
  | Ok regs =>
      exists a,
        In a (regs_list w regs)
        /\ pick_register P t s r u reserve w
           = (Ok a, after_pick w (random_engine P) a reserve)
  | Err _ => pick_register P t s r u reserve w = (Err NoAppropriateRegister, w)
  end.
Proof.
  unfold pick_register.
  pose proof (filter_sound w P t s r u) as Hs.
  destruct (filter w P t s r u) as [regs|e]; [|reflexivity].
  destruct Hs as (_ & Hne & _ & _).
  destruct (regs_list_incl w regs Hne) as [Hl _]. unfold regs_list in *.
  pose proof (filter_sound w regs None None None (Some false)) as Hs2.
  destruct (filter w regs None None None (Some false)) as [un|e].
  - destruct (choice_in (rng w (random_engine P)) _ Hl) as (a & -> & Ha).
    exists a. split; [exact Ha|]. unfold after_pick. now destruct reserve.
  - destruct Hs2 as [-> _]. simpl is_ValueError. cbv iota.
    destruct (choice_in (rng w (random_engine P)) _ Hl) as (a & -> & Ha).
    exists a. split; [exact Ha|]. unfold after_pick. now destruct reserve.
Qed.

Lemma regs_list_exact w regs :
  pool_ok w regs ->
  regs_list w regs =
  match unused w (values (registers regs)) with
  | [] => values (registers regs)
  | un => un
  end.
Proof.
  intros HP. unfold regs_list. rewrite (filter_exact _ _ _ _ _ _ HP).
  unfold candidates, unused.
  rewrite (filter_ext (satisfies w None None None (Some false))
             (fun a => negb (is_in_use (heap w a)))).
  - destruct (List.filter _ (values (registers regs))) as [|a l] eqn:E;
      [reflexivity|].
    cbn [registers]. apply (values_named w (a :: l)).
  - intros a. unfold satisfies; simpl. now destruct (is_in_use (heap w a)).
Qed.

(** C1.  On every pool of the data model and for every combination of the
    optional predicates, [pick_register] computes the filtered candidates;
    it fails only when there is none; otherwise it returns a candidate that
    is not in use whenever one exists, and some candidate when all are in
    use.  The chosen register is then in use; its reserved flag is set when
    [reserve] is given and is left as it was otherwise, so that under the
    default predicate reserved=false it is reserved exactly when [reserve]
    is given.  No other register changes. *)
Theorem pick_register_prefers_unused w P t s r u reserve :
  pool_ok w P ->
  let filtered := candidates w P t s r u in
  (filtered = [] ->
   pick_register P t s r u reserve w = (Err NoAppropriateRegister, w))
  /\ (filtered <> [] ->
      exists a w',
        pick_register P t s r u reserve w = (Ok a, w')
        /\ (unused w filtered <> [] -> In a (unused w filtered))
        /\ (unused w filtered = [] -> In a filtered)
        /\ is_in_use (heap w' a) = true
        /\ is_reserved (heap w' a) = (reserve || is_reserved (heap w a))
        /\ (r = Some false -> is_reserved (heap w' a) = reserve)
        /\ (forall b, b <> a -> heap w' b = heap w b)).
Proof.
  intros HP filtered. subst filtered.
  pose proof (pick_register_run w P t s r u reserve) as Hrun.
  pose proof (filter_sound w P t s r u) as Hs.
  destruct (filter w P t s r u) as [regs|e] eqn:E.
  - destruct Hs as (Hne & _).
    destruct (filter_pool_ok _ _ _ _ _ _ _ HP E) as [Hregs Hv].
    split; [congruence|]. intros _.
    destruct Hrun as (a & Ha & Hpick).
    rewrite (regs_list_exact _ _ Hregs), Hv in Ha.
    destruct (after_pick_spec w (random_engine P) a reserve)
      as (Huse & Hres & _ & _ & _ & _ & Hother & _).
    exists a, (after_pick w (random_engine P) a reserve).
    split; [exact Hpick|].
    assert (In a (candidates w P t s r u)) as Hcand.
    { destruct (unused w (candidates w P t s r u)) eqn:Eu; [exact Ha|].
      rewrite <- Eu in Ha. unfold unused in Ha.
      now apply filter_In in Ha. }
    repeat split.
    + intros Hun. destruct (unused w (candidates w P t s r u)); [congruence|].
      exact Ha.
    + intros _. exact Hcand.
    + exact Huse.
    + exact Hres.
    + intros ->. rewrite Hres. apply candidates_spec in Hcand as [_ Hsat].
      unfold satisfies in Hsat. simpl in Hsat.
      apply andb_true_iff in Hsat as [Hsat _].
      apply andb_true_iff in Hsat as [_ Hsat].
      apply eqb_prop in Hsat. rewrite Hsat. apply orb_false_r.
    + exact Hother.
  - destruct Hs as [_ Hnil]. split; [intros _; exact Hrun | congruence].
Qed.

Lemma pick_register_prefers_unused_witness :
  let filtered := candidates default_world default_pool (Some F) None None None in
  (filtered = [] ->
   pick_register default_pool (Some F) None None None true default_world
   = (Err NoAppropriateRegister, default_world))
  /\ (filtered <> [] ->
      exists a w',
        pick_register default_pool (Some F) None None None true default_world
        = (Ok a, w')
        /\ (unused default_world filtered <> [] ->
            In a (unused default_world filtered))
        /\ (unused default_world filtered = [] -> In a filtered)
        /\ is_in_use (heap w' a) = true
        /\ is_reserved (heap w' a) = (true || is_reserved (heap default_world a))
        /\ (@None bool = Some false -> is_reserved (heap w' a) = true)
        /\ (forall b, b <> a -> heap w' b = heap default_world b)).
Proof.
  exact (pick_register_prefers_unused default_world default_pool (Some F)
           None None None true default_pool_ok).
Defined.

(** C10.  A pick that supplies no reserved predicate (no argument at all,
    or the bank only) filters on reserved=false: on every pool that holds a
    register of the requested bank that is not reserved, it succeeds and
    the register it returns is a register of the pool, of that bank, whose
    reserved flag is false before the call and still false after it. *)
Theorem pick_register_default_skips_reserved w P bank :
  (exists a0, In a0 (values (registers P))
              /\ is_reserved (heap w a0) = false /\ of_bank w bank a0) ->
  exists a w',
    pick_register_default P bank w = (Ok a, w')
    /\ In a (values (registers P))
    /\ of_bank w bank a
    /\ is_reserved (heap w a) = false
    /\ is_reserved (heap w' a) = false.
Proof.
  intros (a0 & Hin0 & Hres0 & Hbank0).
  assert (pick_register_default P bank = pick_register P bank None (Some false) None false)
    as -> by now destruct bank.
  pose proof (pick_register_run w P bank None (Some false) None false) as Hrun.
  pose proof (filter_sound w P bank None (Some false) None) as Hs.
  assert (In a0 (candidates w P bank None (Some false) None)) as Hc0.
  { apply candidates_spec. split; [exact Hin0|].
    unfold satisfies; simpl. rewrite Hres0. simpl.
    destruct bank as [t|]; simpl; [|reflexivity].
    simpl in Hbank0. rewrite Hbank0. now destruct t. }
  destruct (filter w P bank None (Some false) None) as [regs|e].
  - destruct Hs as (_ & Hne & _ & Hincl).
    destruct Hrun as (a & Ha & Hpick).
    apply (regs_list_incl w regs Hne) in Ha. apply Hincl in Ha.
    apply candidates_spec in Ha as [Hin Hsat].
    unfold satisfies in Hsat; simpl in Hsat.
    rewrite andb_true_r in Hsat. apply andb_true_iff in Hsat as [Hty Hres].
    rewrite andb_true_r in Hty. apply eqb_prop in Hres.
    destruct (after_pick_spec w (random_engine P) a false)
      as (_ & Hres' & _ & _ & _ & _ & _).
    exists a, (after_pick w (random_engine P) a false).
    repeat split; try assumption.
    + destruct bank as [t|]; simpl in *; [|exact I].
      now destruct (type (heap w a)), t.
    + rewrite Hres', Hres. reflexivity.
  - destruct Hs as [_ Hnil]. rewrite Hnil in Hc0. destruct Hc0.
Qed.

Lemma pick_register_default_skips_reserved_witness :
  exists a w',
    pick_register_default default_pool (Some X) default_world = (Ok a, w')
    /\ In a (values (registers default_pool))
    /\ of_bank default_world (Some X) a
    /\ is_reserved (heap default_world a) = false
    /\ is_reserved (heap w' a) = false.
Proof.
  apply (pick_register_default_skips_reserved default_world default_pool (Some X)).
  exists 5. vm_compute. intuition.
Defined.

(* ================================================================= *)
(** ** [Registers.get_register] and [Registers.reserve_register] *)

Lemma pool_key_is_name w P k a :
  pool_ok w P -> In (k, a) (registers P) -> k = name (heap w a).
Proof.
  intros [_ Hn] Hin. rewrite Forall_forall in Hn. exact (Hn _ Hin).
Qed.

Lemma in_values_registers (P : Registers) a :
  In a (values (registers P)) <-> exists k, In (k, a) (registers P).
Proof.
  unfold values. rewrite in_map_iff. split.
  - intros ([k b] & Hb & Hin). simpl in Hb. subst b. now exists k.
  - intros (k & Hin). now exists (k, a).
Qed.

(** On a pool of the data model the key lookup is the lookup by
    architectural name, and the scan that follows is by ABI alias. *)
Lemma get_register_spec w P n :
  pool_ok w P ->
  match get_register w P n with
  | Some a =>
      In a (values (registers P))
      /\ (name (heap w a) = n
          \/ (abi_name (heap w a) = n
              /\ forall b, In b (values (registers P)) -> name (heap w b) <> n))
  | None =>
      forall b, In b (values (registers P)) ->
                name (heap w b) <> n /\ abi_name (heap w b) <> n
  end.
Proof.
  intros HP. unfold get_register.
  destruct (dict_get (registers P) n) as [a|] eqn:E.
  - apply (dict_get_in _ _ _ (proj1 HP)) in E.
    split; [apply in_values_registers; now exists n|].
    left. symmetry. now apply (pool_key_is_name w P).
  - assert (forall b, In b (values (registers P)) -> name (heap w b) <> n) as Hno.
    { intros b Hb Hname. apply dict_get_none in E. apply E.
      apply in_values_registers in Hb as (k & Hin).
      rewrite <- Hname, <- (pool_key_is_name w P k b HP Hin).
      unfold keys. change k with (fst (k, b)). now apply in_map. }
    destruct (find _ (values (registers P))) as [a|] eqn:Ef.
    + apply find_some in Ef as [Hin Habi]. apply String.eqb_eq in Habi.
      split; [exact Hin|]. right. now split.
    + intros b Hb. split; [now apply Hno|].
      intros Habi. pose proof (find_none _ _ Ef b Hb) as Hf. simpl in Hf.
      apply String.eqb_neq in Hf. contradiction.
Qed.

(** C8, as the code has it.  On every pool of the data model,
    [reserve_register] looks the register up by architectural name first
    and by ABI alias next; it raises [UnknownRegister] exactly when no
    register of the pool has the given text as its architectural name or as
    its ABI alias; on success the register found has its reserved flag set,
    and it is the register of that architectural name when there is one. *)
Theorem reserve_register_by_name_or_alias w P n :
  pool_ok w P ->
  ((exists b, In b (values (registers P))
              /\ (name (heap w b) = n \/ abi_name (heap w b) = n)) ->
   exists a,
     reserve_register P n w = (Ok a, set_is_reserved w a true)
     /\ In a (values (registers P))
     /\ (name (heap w a) = n \/ abi_name (heap w a) = n)
     /\ ((exists b, In b (values (registers P)) /\ name (heap w b) = n) ->
         name (heap w a) = n)
     /\ is_reserved (heap (set_is_reserved w a true) a) = true)
  /\ ((forall b, In b (values (registers P)) ->
                 name (heap w b) <> n /\ abi_name (heap w b) <> n) ->
      reserve_register P n w = (Err (UnknownRegister n), w)).
Proof.
  intros HP. pose proof (get_register_spec w P n HP) as Hget.
  unfold reserve_register.
  destruct (get_register w P n) as [a|]; split.
  - intros _. exists a. destruct Hget as [Hin Hcase].
    split; [reflexivity|]. split; [exact Hin|].
    split; [tauto|]. split.
    + intros (b & Hb & Hname). destruct Hcase as [H|[_ Hno]]; [exact H|].
      now destruct (Hno b Hb).
    + now rewrite heap_set_is_reserved_same.
  - intros Hnone. destruct Hget as [Hin Hcase].
    destruct (Hnone a Hin) as [H1 H2]. tauto.
  - intros (b & Hb & Hcase). destruct (Hget b Hb). tauto.
  - reflexivity.
Qed.

Lemma reserve_register_by_name_or_alias_witness :
  exists a,
    reserve_register default_pool "sp" default_world
    = (Ok a, set_is_reserved default_world a true)
    /\ In a (values (registers default_pool))
    /\ (name (heap default_world a) = "sp" \/ abi_name (heap default_world a) = "sp")
    /\ ((exists b, In b (values (registers default_pool))
                   /\ name (heap default_world b) = "sp") ->
        name (heap default_world a) = "sp")
    /\ is_reserved (heap (set_is_reserved default_world a true) a) = true.
Proof.
  apply (proj1 (reserve_register_by_name_or_alias default_world default_pool
                  "sp" default_pool_ok)).
  exists 2. split; [vm_compute; tauto | right; vm_compute; reflexivity].
Defined.

(** C8 as it is stated fails: no register of the default pool has the
    architectural name [ra], and [reserve_register] accepts [ra] all the
    same, reserving [x1] whose ABI alias it is. *)
Lemma reserve_register_accepts_abi_alias :
  (forall b, In b (values (registers default_pool)) ->
             name (heap default_world b) <> "ra")
  /\ exists a w',
       reserve_register default_pool "ra" default_world = (Ok a, w')
       /\ name (heap w' a) = "x1"
       /\ is_reserved (heap w' a) = true.
Proof.
  split.
  - assert (forallb (fun b => negb (String.eqb (name (heap default_world b)) "ra"))
              (values (registers default_pool)) = true) as H
      by (vm_compute; reflexivity).
    pose proof (proj1 (forallb_forall _ _) H) as H'. intros b Hb Hname.
    specialize (H' b Hb). cbv beta in H'. rewrite Hname in H'.
    vm_compute in H'. discriminate H'.
  - exists 1, (set_is_reserved default_world 1 true).
    split; [|split]; vm_compute; reflexivity.
Qed.

(* ================================================================= *)
(** ** Filtered views and their parent *)

Lemma dict_get_some_in {V} (d : dict V) k v :
  dict_get d k = Some v -> In v (values d).
Proof.
  induction d as [|[k' v'] d IH]; simpl; [discriminate|].
  destruct (String.eqb k' k); [intros [= ->]; now left | right; now apply IH].
Qed.

Lemma get_register_in w P n a :
  get_register w P n = Some a -> In a (values (registers P)).
Proof.
  unfold get_register. destruct (dict_get (registers P) n) as [b|] eqn:E.
  - intros [= <-]. now apply dict_get_some_in with n.
  - intros H. now apply find_some in H.
Qed.

Lemma reset_fold l : forall w,
  let w' := fold_left
              (fun w a => set_is_reserved (set_is_in_use w a false) a false) l w in
  (forall a, In a l ->
             is_reserved (heap w' a) = false /\ is_in_use (heap w' a) = false)
  /\ (forall b, ~ In b l -> heap w' b = heap w b)
  /\ rng w' = rng w.
Proof.
  induction l as [|x l IH]; intros w; simpl.
  - repeat split; tauto.
  - destruct (IH (set_is_reserved (set_is_in_use w x false) x false))
      as (Hin & Hout & Hrng).
    split; [|split].
    + intros a [<-|Ha]; [|now apply Hin].
      destruct (in_dec Nat.eq_dec x l) as [Hx|Hx]; [now apply Hin|].
      rewrite (Hout x Hx). simpl. rewrite !Nat.eqb_refl. simpl. now split.
    + intros b Hb. rewrite Hout by tauto.
      assert (b <> x) as Hne by (intros ->; tauto).
      simpl. apply Nat.eqb_neq in Hne. now rewrite Hne.
    + rewrite Hrng. reflexivity.
Qed.

(** C6, as the code has it.  A pool returned by [filter] holds registers
    of its parent, at their own addresses: setting a flag of such a
    register through the view, by assignment, by [pick_register], by
    [reserve_register] or by [reset_usage], changes the one record the
    parent sees and no other.  The mapping of the view is its own; beside
    the registers, the view shares with its parent the random engine, which
    a pick through the view advances. *)
Theorem filtered_view_shares_registers_and_engine w P t s r u G :
  filter w P t s r u = Ok G ->
  (forall a, In a (values (registers G)) -> In a (values (registers P)))
  /\ random_engine G = random_engine P
  /\ (forall a v, In a (values (registers G)) ->
                  is_reserved (heap (set_is_reserved w a v) a) = v
                  /\ is_in_use (heap (set_is_in_use w a v) a) = v)
  /\ (forall t' s' r' u' reserve a w',
        pick_register G t' s' r' u' reserve w = (Ok a, w') ->
        In a (values (registers P))
        /\ is_in_use (heap w' a) = true
        /\ is_reserved (heap w' a) = (reserve || is_reserved (heap w a))
        /\ (forall b, b <> a -> heap w' b = heap w b)
        /\ rng w' (random_engine P) = advance (rng w (random_engine P))
        /\ (forall e, e <> random_engine P -> rng w' e = rng w e))
  /\ (forall n a w',
        reserve_register G n w = (Ok a, w') ->
        In a (values (registers P))
        /\ is_reserved (heap w' a) = true
        /\ (forall b, b <> a -> heap w' b = heap w b)
        /\ rng w' = rng w)
  /\ (forall w',
        reset_usage G w = (Ok tt, w') ->
        (forall a, In a (values (registers G)) ->
                   is_reserved (heap w' a) = false
                   /\ is_in_use (heap w' a) = false)
        /\ (forall b, ~ In b (values (registers G)) -> heap w' b = heap w b)
        /\ rng w' = rng w).
Proof.
  intros HG. pose proof (filter_sound w P t s r u) as Hs. rewrite HG in Hs.
  destruct Hs as (_ & Hne & Heng & Hincl).
  assert (forall a, In a (values (registers G)) -> In a (values (registers P)))
    as Hsub.
  { intros a Ha. apply Hincl, candidates_spec in Ha. tauto. }
  split; [exact Hsub|]. split; [exact Heng|]. split; [|split; [|split]].
  - intros a v _. now rewrite heap_set_is_reserved_same, heap_set_is_in_use_same.
  - intros t' s' r' u' reserve a w' Hpick.
    pose proof (pick_register_run w G t' s' r' u' reserve) as Hrun.
    pose proof (filter_sound w G t' s' r' u') as Hs'.
    destruct (filter w G t' s' r' u') as [regs|e].
    + destruct Hrun as (a' & Ha' & Hpick'). rewrite Hpick' in Hpick.
      injection Hpick as -> <-.
      destruct Hs' as (_ & Hne' & _ & Hincl').
      apply (regs_list_incl w regs Hne'), Hincl', candidates_spec in Ha'.
      rewrite Heng.
      destruct (after_pick_spec w (random_engine P) a reserve)
        as (Huse & Hres & _ & _ & _ & _ & Hother & Hadv & Hrest).
      repeat split; try assumption. apply Hsub. tauto.
    + rewrite Hrun in Hpick. discriminate Hpick.
  - intros n a w'. unfold reserve_register.
    destruct (get_register w G n) as [b|] eqn:E; [|discriminate].
    intros [= <- <-]. apply get_register_in in E.
    split; [now apply Hsub|]. split; [now rewrite heap_set_is_reserved_same|].
    split; [intros c Hc; now apply heap_set_is_reserved_other | reflexivity].
  - intros w'. unfold reset_usage. intros [= <-]. apply reset_fold.
Qed.

Lemma default_view_eq :
  filter default_world default_pool (Some X) None None None = Ok default_view.
Proof. vm_compute. reflexivity. Qed.

Lemma filtered_view_shares_registers_and_engine_witness :
  (forall a, In a (values (registers default_view)) ->
             In a (values (registers default_pool)))
  /\ random_engine default_view = random_engine default_pool.
Proof.
  assert (filter default_world default_pool (Some X) None None None
          = Ok default_view) as E by (vm_compute; reflexivity).
  pose proof (filtered_view_shares_registers_and_engine default_world
                default_pool (Some X) None None None default_view E) as H.
  split; [exact (proj1 H) | exact (proj1 (proj2 H))].
Defined.

(** C6 as it is stated fails: the registers are not all that a view shares
    with its parent.  On the pool of an assembler, whose engine is the
    [random.Random] instance injected by the assembler, a pick through a
    filtered view advances that very instance, the engine of the parent,
    and leaves the generator of the [random] module where it was. *)
Lemma filtered_view_advances_parent_engine :
  random_engine injected_pool = Random_obj 0
  /\ exists a w',
       filter injected_world injected_pool (Some X) None None None
       = Ok injected_view
       /\ pick_register_noargs injected_view injected_world = (Ok a, w')
       /\ cursor (rng injected_world (random_engine injected_pool)) = 0
       /\ cursor (rng w' (random_engine injected_pool)) = 1
       /\ rng w' (random_engine injected_pool)
          <> rng injected_world (random_engine injected_pool)
       /\ rng w' random_module = rng injected_world random_module.
Proof.
  split; [vm_compute; reflexivity|].
  exists 5, (after_pick injected_world (random_engine injected_view) 5 false).
  split; [vm_compute; reflexivity|].
  split; [vm_compute; reflexivity|].
  split; [vm_compute; reflexivity|].
  split; [vm_compute; reflexivity|].
  split.
  - intros Heq. apply (f_equal cursor) in Heq. vm_compute in Heq.
    discriminate Heq.
  - destruct (after_pick_spec injected_world (random_engine injected_view) 5 false)
      as (_ & _ & _ & _ & _ & _ & _ & _ & Hrest).
    apply Hrest. intros E. vm_compute in E. discriminate E.
Qed.

(* ================================================================= *)
(** ** [Register.__init__] *)

Lemma is_digit_char_spec c :
  Py.is_digit_char c = true <-> is_python_digit c.
Proof.
  unfold Py.is_digit_char, is_python_digit, is_decimal_digit.
  change (nat_of_ascii "0") with 48. change (nat_of_ascii "9") with 57.
  cbv zeta.
  rewrite !orb_true_iff, andb_true_iff, !Nat.leb_le, !Nat.eqb_eq. tauto.
Qed.

Lemma all_chars_digits s :
  Py.all_chars Py.is_digit_char s = true <->
  Forall is_python_digit (list_ascii_of_string s).
Proof.
  induction s as [|c s IH]; simpl.
  - split; [constructor | reflexivity].
  - rewrite andb_true_iff, IH, is_digit_char_spec. split.
    + intros [H1 H2]. now constructor.
    + intros H. inversion H; subst. now split.
Qed.

Lemma startswith_char c s (k : ascii) :
  Py.startswith (String c s) (String k EmptyString) = true <-> c = k.
Proof.
  unfold Py.startswith. simpl. destruct (ascii_dec k c) as [->|Hne].
  - split; [reflexivity | now destruct s].
  - split; [discriminate | congruence].
Qed.

Lemma name_check_spec nm :
  (negb (Py.startswith nm "x" || Py.startswith nm "f")
   || negb (Py.isdigit (Py.tail nm))) = false
  <-> is_accepted_name nm.
Proof.
  rewrite orb_false_iff, !negb_false_iff, orb_true_iff. split.
  - intros [Hp Hd]. destruct nm as [|c ds]; [destruct Hp; discriminate|].
    exists c, ds. split; [reflexivity|].
    rewrite !startswith_char in Hp. split; [tauto|].
    simpl in Hd. destruct ds as [|d ds]; [discriminate|].
    split; [discriminate|]. now apply all_chars_digits.
  - intros (c & ds & -> & Hc & Hne & Hd). rewrite !startswith_char.
    split; [tauto|]. simpl. destruct ds as [|d ds]; [congruence|].
    now apply all_chars_digits.
Qed.

Lemma python_digit_ascii c :
  is_python_digit c -> (nat_of_ascii c < 128)%nat -> is_decimal_digit c.
Proof. unfold is_python_digit. intros [H|H] Hlt; [exact H | lia]. Qed.

(** C5, as the code has it.  The constructor succeeds exactly on the names
    made of an [x] or an [f] followed by one character or more that
    [str.isdigit] accepts, and raises [InvalidIdentity] on every other
    name.  Every name of [^(x|f)[0-9]+$] is such a name, and an ASCII name
    is such a name only if it is of [^(x|f)[0-9]+$]; a digit outside ASCII,
    as a superscript two, is accepted as well.  The register built has the
    name given and the bank declared (the integer bank when none is),
    whatever the prefix of the name: the name is not compared with the
    bank. *)
Theorem Register_init_checks_the_name_only nm abi t s res use :
  (is_accepted_name nm ->
   exists reg,
     Register_init nm abi t s res use = Ok reg
     /\ name reg = nm /\ type reg = t /\ saved_by reg = s
     /\ is_reserved reg = res /\ is_in_use reg = use)
  /\ (~ is_accepted_name nm ->
      Register_init nm abi t s res use = Err (InvalidIdentity nm))
  /\ (is_register_name nm -> is_accepted_name nm)
  /\ (is_ascii_text nm -> is_accepted_name nm -> is_register_name nm).
Proof.
  split; [|split; [|split]].
  - intros Hn. apply name_check_spec in Hn. unfold Register_init.
    rewrite Hn. eexists. split; [reflexivity|]. simpl. tauto.
  - intros Hn. unfold Register_init.
    destruct (negb (Py.startswith nm "x" || Py.startswith nm "f")
              || negb (Py.isdigit (Py.tail nm))) eqn:E; [reflexivity|].
    exfalso. apply Hn. now apply name_check_spec.
  - intros (c & ds & -> & Hc & Hne & Hd). exists c, ds.
    repeat split; try assumption.
    eapply Forall_impl; [|exact Hd]. intros d Hdd. now left.
  - intros Hascii (c & ds & -> & Hc & Hne & Hd). exists c, ds.
    repeat split; try assumption.
    unfold is_ascii_text in Hascii. simpl in Hascii.
    inversion Hascii as [|? ? _ Hrest]; subst.
    rewrite Forall_forall in *. intros d Hin.
    apply python_digit_ascii; [now apply Hd | now apply Hrest].
Qed.

Lemma Register_init_checks_the_name_only_witness :
  exists reg,
    Register_init "x5" None X Caller false false = Ok reg
    /\ name reg = "x5" /\ type reg = X /\ saved_by reg = Caller
    /\ is_reserved reg = false /\ is_in_use reg = false.
Proof.
  apply (proj1 (Register_init_checks_the_name_only "x5" None X Caller false false)).
  exists "x"%char, "5". split; [reflexivity|]. split; [now left|].
  split; [discriminate|]. repeat constructor.
Defined.

(** C5 as it is stated fails, in both parts.  [Register("f5")] is built in
    the integer bank though its name starts with [f], and
    [Register("x5", type=F)] is built in the float bank.  And the name of
    a register need not be of [^(x|f)[0-9]+$]: the constructor builds a
    register named [x] and superscript two. *)
Lemma Register_init_ignores_the_bank :
  (exists reg,
     Register_init "f5" None X Caller false false = Ok reg
     /\ type reg = X /\ Py.startswith (name reg) "x" = false)
  /\ (exists reg,
        Register_init "x5" None F Caller false false = Ok reg
        /\ type reg = F /\ Py.startswith (name reg) "x" = true)
  /\ (exists reg,
        Register_init x_superscript_two None X Caller false false = Ok reg
        /\ name reg = x_superscript_two
        /\ ~ is_register_name (name reg)).
Proof.
  split; [|split].
  - eexists. split; [reflexivity|]. split; reflexivity.
  - eexists. split; [reflexivity|]. split; reflexivity.
  - eexists. split; [reflexivity|]. split; [reflexivity|].
    intros (c & ds & E & _ & _ & Hd). injection E as _ <-.
    inversion Hd as [|? ? H _]; subst.
    unfold is_decimal_digit in H. vm_compute in H. lia.
Qed.

(* ================================================================= *)
(** ** [InstructionDefinition.generate] *)

Lemma format_operand_renders w k v s i :
  renders w k v s -> instruction.format_operand w i k v = Ok s.
Proof.
  intros H. destruct H as [a Ht|a Ht| | |z Hz|z Hz|a z]; simpl;
    try rewrite Ht; try reflexivity.
  - unfold Py.hex. destruct (Z.ltb_spec z 0); [lia | reflexivity].
  - unfold Py.hex. destruct (Z.ltb_spec z 0); [reflexivity | lia].
Qed.

(** The digits [hex] prints read back, in base sixteen, to the number. *)
Lemma hex_digits_value n :
  option_map N.of_hex_uint
    (HexadecimalString.NilZero.uint_of_string (Py.hex_digits n)) = Some n.
Proof.
  unfold Py.hex_digits. rewrite HexadecimalString.NilZero.usu.
  - simpl. now rewrite HexadecimalN.Unsigned.of_to.
  - destruct n; [discriminate | apply HexadecimalPos.Unsigned.to_uint_nonnil].
Qed.

Lemma skipn_cons_nth {A} (l : list A) : forall i k ks,
  k :: ks = skipn i l -> nth_error l i = Some k /\ ks = skipn (S i) l.
Proof.
  induction l as [|x l IH]; intros i k ks H.
  - destruct i; discriminate H.
  - destruct i as [|i]; simpl in *.
    + injection H as -> ->. now split.
    + apply IH, H.
Qed.

Lemma generate_loop_renders w fmt : forall ops strs i acc,
  renders_all w (skipn i fmt) ops strs ->
  instruction.generate_loop w fmt i ops acc = Ok (acc ++ strs)%list.
Proof.
  induction ops as [|v vs IH]; intros strs i acc H; inversion H; subst; simpl.
  - now rewrite app_nil_r.
  - match goal with E : _ :: _ = skipn _ _ |- _ =>
      destruct (skipn_cons_nth _ _ _ _ E) as [Hnth ->] end.
    rewrite Hnth.
    match goal with R : renders _ _ _ _ |- _ =>
      rewrite (format_operand_renders _ _ _ _ i R) end.
    rewrite (IH ss (S i) (acc ++ [s])%list); [|assumption].
    now rewrite <- app_assoc.
Qed.

Lemma renders_all_length w ks vs ss :
  renders_all w ks vs ss -> length vs = length ks.
Proof. induction 1; simpl; congruence. Qed.

(** The rendering, for every operand tuple that meets the contract. *)
Lemma generate_renders w d ops strs :
  renders_all w (instruction.value (instruction.format d)) ops strs ->
  instruction.generate w d ops
  = Ok (Py.lower (instruction.mnemonic d) ++ " " ++ Py.join ", " strs)%string.
Proof.
  intros H. unfold instruction.generate.
  rewrite (renders_all_length _ _ _ _ H), Nat.eqb_refl. simpl negb. cbv iota.
  rewrite (generate_loop_renders w _ ops strs 0 []); [reflexivity|exact H].
Qed.

(** C4, as the code has it.  For every instruction definition and every
    operand tuple that meets the operand contract, [generate] returns the
    mnemonic in lower case, a space, and the rendered operands joined by a
    comma and a space: a register of either bank as its ABI alias, a CSR
    and a label as their name, an integer immediate in lower-case
    hexadecimal after [0x] (with the sign first when negative), a base
    and offset pair as [offset(alias)].  So [ADDI] on [x10], [x11] and 5
    yields [addi x10, x11, 0x5] when the two registers carry no ABI alias,
    the alias being then the architectural name. *)
Theorem generate_renders_operands :
  (forall w d ops strs,
     renders_all w (instruction.value (instruction.format d)) ops strs ->
     instruction.generate w d ops
     = Ok (Py.lower (instruction.mnemonic d) ++ " " ++ Py.join ", " strs)%string)
  /\ (fst raw_registers = Ok (0, 1)
      /\ instruction.generate raw_world ADDI
           [Atom (Reg 0); Atom (Reg 1); Atom (Int 5)]
         = Ok "addi x10, x11, 0x5").
Proof.
  split; [exact generate_renders|]. split; reflexivity.
Qed.

Lemma generate_renders_operands_witness :
  instruction.generate raw_world
    (instruction.mkInstructionDefinition "ADD" instruction.R "I")
    [Atom (Reg 0); Atom (Reg 1); Atom (Reg 0)]
  = Ok "add x10, x11, x10".
Proof.
  apply (proj1 generate_renders_operands raw_world
           (instruction.mkInstructionDefinition "ADD" instruction.R "I")
           [Atom (Reg 0); Atom (Reg 1); Atom (Reg 0)] ["x10"; "x11"; "x10"]).
  apply renders_cons; [exact (renders_register raw_world 0 eq_refl)|].
  apply renders_cons; [exact (renders_register raw_world 1 eq_refl)|].
  apply renders_cons; [exact (renders_register raw_world 0 eq_refl)|].
  apply renders_nil.
Defined.

(** C4 as it is stated fails on the default pool, where [x10] and [x11]
    carry the ABI aliases [a0] and [a1]: the line is [addi a0, a1, 0x5]. *)
Lemma generate_ADDI_on_the_default_pool :
  exists x10 x11,
    get_register default_world default_pool "x10" = Some x10
    /\ get_register default_world default_pool "x11" = Some x11
    /\ instruction.generate default_world ADDI
         [Atom (Reg x10); Atom (Reg x11); Atom (Int 5)]
       = Ok "addi a0, a1, 0x5"
    /\ instruction.generate default_world ADDI
         [Atom (Reg x10); Atom (Reg x11); Atom (Int 5)]
       <> Ok "addi x10, x11, 0x5".
Proof.
  exists 10, 11. split; [vm_compute; reflexivity|].
  split; [vm_compute; reflexivity|].
  assert (instruction.generate default_world ADDI
            [Atom (Reg 10); Atom (Reg 11); Atom (Int 5)]
          = Ok "addi a0, a1, 0x5") as E by (vm_compute; reflexivity).
  split; [exact E|]. rewrite E. intros H. discriminate H.
Qed.

Lemma generate_arity_mismatch w d ops :
  length ops <> length (instruction.value (instruction.format d)) ->
  instruction.generate w d ops
  = Err (ArityMismatch (length (instruction.value (instruction.format d)))
                       (length ops)).
Proof.
  intros H. unfold instruction.generate.
  apply Nat.eqb_neq in H. now rewrite H.
Qed.

(** Outside [BASE_OFFSET], an operand that does not meet the contract of
    its kind is refused at its position. *)
Lemma format_operand_mismatch w i k v :
  k <> BASE_OFFSET -> (forall s, ~ renders w k v s) ->
  instruction.format_operand w i k v = instruction.mismatch i k v.
Proof.
  intros Hk Hno.
  destruct k; try congruence; destruct v as [[a|c|l|z|s|]|items];
    cbn [instruction.format_operand]; try reflexivity.
  - destruct (type (heap w a)) eqn:E; [|reflexivity].
    exfalso. eapply Hno. now apply renders_register.
  - exfalso. destruct (Z.lt_ge_cases z 0).
    + eapply Hno. now apply renders_negative_immediate.
    + eapply Hno. now apply renders_immediate.
  - exfalso. eapply Hno. apply renders_label.
  - destruct (type (heap w a)) eqn:E; [reflexivity|].
    exfalso. eapply Hno. now apply renders_fregister.
  - exfalso. eapply Hno. apply renders_csr.
Qed.

Lemma generate_loop_mismatch w fmt k rest v post :
  k <> BASE_OFFSET -> (forall s, ~ renders w k v s) ->
  forall ks pre strs,
    renders_all w ks pre strs ->
    forall i acc,
      skipn i fmt = (ks ++ k :: rest)%list ->
      instruction.generate_loop w fmt i (pre ++ v :: post)%list acc
      = if str_raises v then Err TypeError
        else Err (OperandTypeMismatch (i + length pre + 1) k).
Proof.
  intros Hk Hno ks pre strs H.
  induction H as [|k0 v0 s0 ks vs ss Hr _ IH]; intros i acc Hskip; simpl.
  - symmetry in Hskip. apply skipn_cons_nth in Hskip as [-> _].
    rewrite (format_operand_mismatch w i k v Hk Hno).
    unfold instruction.mismatch. rewrite Nat.add_0_r.
    now destruct (str_raises v).
  - symmetry in Hskip. simpl in Hskip.
    apply skipn_cons_nth in Hskip as [-> Hnext].
    rewrite (format_operand_renders _ _ _ _ i Hr).
    rewrite (IH (S i)); [|now symmetry].
    destruct (str_raises v); [reflexivity|]. do 2 f_equal. lia.
Qed.

(** The part of C2 that holds: a wrong operand count is an
    [ArityMismatch], and an operand of a kind other than [BASE_OFFSET] that
    does not meet its contract is an [OperandTypeMismatch] at its
    position, the operands before it being accepted; unless the operand
    is a tuple holding a label without address, which cannot be printed in
    the message. *)
Lemma generate_rejects_mismatch w d ks k rest pre v post strs :
  instruction.value (instruction.format d) = (ks ++ k :: rest)%list ->
  renders_all w ks pre strs ->
  length post = length rest ->
  k <> BASE_OFFSET -> (forall s, ~ renders w k v s) ->
  instruction.generate w d (pre ++ v :: post)%list
  = if str_raises v then Err TypeError
    else Err (OperandTypeMismatch (length pre + 1) k).
Proof.
  intros Hfmt Hpre Hpost Hk Hno. unfold instruction.generate.
  rewrite Hfmt, !length_app. simpl length.
  rewrite (renders_all_length _ _ _ _ Hpre), Hpost, Nat.eqb_refl. simpl negb.
  cbv iota.
  rewrite (generate_loop_mismatch w _ k rest v post Hk Hno ks pre strs Hpre
             0 []); [|reflexivity].
  rewrite (renders_all_length _ _ _ _ Hpre). now destruct (str_raises v).
Qed.

(** C2 fails on the code for the [BASE_OFFSET] kind, of which only the
    tuple type is checked.  On the default pool, with [x5] and [x6] of ABI
    aliases [t0] and [t1]: [SW] on the pair (5, 7), whose base is no
    register, raises [AttributeError], not an [OperandTypeMismatch]; on
    the pair (x6, "foo"), whose offset is no integer, it renders a line;
    on a tuple of one item it raises the [ValueError] of the unpacking,
    which names no position. *)
Theorem generate_base_offset_unchecked :
  instruction.generate default_world SW
    [Atom (Reg 5); Tuple [Int 5; Int 7]]
  = Err (AttributeError "abi_name")
  /\ instruction.generate default_world SW
       [Atom (Reg 5); Tuple [Reg 6; Str "foo"]]
     = Ok "sw t0, foo(t1)"
  /\ instruction.generate default_world SW
       [Atom (Reg 5); Tuple [Reg 6]]
     = Err (UnpackError 2 1).
Proof.
  split; [|split]; vm_compute; reflexivity.
Qed.

(* ================================================================= *)
(** ** Reproducibility of a run *)

(** A catalog returned by [InstructionSet.filter] draws from the generator
    of the [random] module, whatever engine its parent was given. *)
Lemma instruction_filter_drops_the_engine self extension mnemonic format :
  instruction.random_engine (instruction.filter self extension mnemonic format)
  = random_module.
Proof. reflexivity. Qed.

(** C3 fails on the code.  With one and the same seeded generator, two runs
    that make the same calls write different files when the generator of the
    [random] module is in different states: the number of a random label is
    drawn from the module, not from the injected engine.  The same holds
    for a pick from a filtered instruction catalog, which the filter builds
    without the engine. *)
Theorem run_depends_on_the_module_generator :
  jal_run counting counting = Ok ("jal t0, label_0" ++ newline)%string
  /\ jal_run counting counting_from_one
     = Ok ("jal t0, label_1" ++ newline)%string
  /\ filtered_pick_run counting counting = Ok (Some "ADD")
  /\ filtered_pick_run counting counting_from_one = Ok (Some "XOR").
Proof.
  repeat split; vm_compute; reflexivity.
Qed.

(* ================================================================= *)
(** ** More on the register pool *)

Lemma pick_register_sound w P t s r u reserve a w' :
  pick_register P t s r u reserve w = (Ok a, w') ->
  In a (values (registers P))
  /\ satisfies w t s r u a = true
  /\ w' = after_pick w (random_engine P) a reserve.
Proof.
  intros Hpick.
  pose proof (pick_register_run w P t s r u reserve) as Hrun.
  pose proof (filter_sound w P t s r u) as Hs.
  destruct (filter w P t s r u) as [regs|e].
  - destruct Hrun as (a' & Ha' & Hpick'). rewrite Hpick' in Hpick.
    injection Hpick as -> <-.
    destruct Hs as (_ & Hne & _ & Hincl).
    apply (regs_list_incl w regs Hne), Hincl, candidates_spec in Ha'.
    destruct Ha' as [Hin Hsat]. now repeat split.
  - rewrite Hrun in Hpick. discriminate Hpick.
Qed.

Lemma pick_register_choice w P t s r u reserve a w' :
  pool_ok w P ->
  pick_register P t s r u reserve w = (Ok a, w') ->
  In a (match unused w (candidates w P t s r u) with
        | [] => candidates w P t s r u
        | un => un
        end).
Proof.
  intros HP Hpick.
  pose proof (pick_register_run w P t s r u reserve) as Hrun.
  destruct (filter w P t s r u) as [regs|e] eqn:E.
  - destruct (filter_pool_ok _ _ _ _ _ _ _ HP E) as [Hregs Hv].
    destruct Hrun as (a' & Ha' & Hpick'). rewrite Hpick' in Hpick.
    injection Hpick as -> _.
    now rewrite (regs_list_exact _ _ Hregs), Hv in Ha'.
  - rewrite Hrun in Hpick. discriminate Hpick.
Qed.

Lemma pool_ok_same_names w w' P :
  (forall a, name (heap w' a) = name (heap w a)) ->
  pool_ok w P -> pool_ok w' P.
Proof.
  intros Hn [Hk Hf]. split; [exact Hk|].
  rewrite Forall_forall in *. intros kv Hin. rewrite Hn. now apply Hf.
Qed.

Lemma after_pick_names w e a reserve b :
  name (heap (after_pick w e a reserve) b) = name (heap w b).
Proof.
  destruct (after_pick_spec w e a reserve)
    as (_ & _ & Hname & _ & _ & _ & Hother & _).
  destruct (Nat.eq_dec b a) as [->|Hne]; [exact Hname|].
  now rewrite (Hother b Hne).
Qed.

Lemma satisfies_same_record w w' t s r u a :
  heap w' a = heap w a -> satisfies w' t s r u a = satisfies w t s r u a.
Proof. intros H. unfold satisfies. now rewrite H. Qed.

(** X1.  A pick never returns a register that the active predicates
    exclude: the register returned belongs to the pool and satisfied, when
    the call was made, every predicate supplied; the store after the call
    is the store before it with the engine of the pool advanced by one
    draw, the register in use, and the register reserved if [reserve] was
    given. *)
Theorem pick_register_returns_a_candidate w P t s r u reserve a w' :
  pick_register P t s r u reserve w = (Ok a, w') ->
  In a (values (registers P))
  /\ satisfies w t s r u a = true
  /\ w' = after_pick w (random_engine P) a reserve.
Proof. apply pick_register_sound. Qed.

Lemma pick_register_returns_a_candidate_witness :
  In 32 (values (registers default_pool))
  /\ satisfies default_world (Some F) None (Some false) None 32 = true
  /\ after_pick default_world (random_engine default_pool) 32 true
     = after_pick default_world (random_engine default_pool) 32 true.
Proof.
  assert (pick_register default_pool (Some F) None (Some false) None true
            default_world
          = (Ok 32, after_pick default_world (random_engine default_pool) 32 true))
    as H by (vm_compute; reflexivity).
  exact (pick_register_returns_a_candidate default_world default_pool (Some F)
           None (Some false) None true 32 _ H).
Defined.

(** X2.  On a pool of the data model, two picks in a row with the same
    predicates return two different registers whenever a candidate other
    than the first register picked was not in use: the second pick takes a
    register that the first one left unused. *)
Theorem pick_register_twice_distinct w P t s r u reserve a w1 b w2 :
  pool_ok w P ->
  pick_register P t s r u reserve w = (Ok a, w1) ->
  pick_register P t s r u reserve w1 = (Ok b, w2) ->
  (exists c, In c (unused w (candidates w P t s r u)) /\ c <> a) ->
  b <> a /\ is_in_use (heap w b) = false.
Proof.
  intros HP H1 H2 (c & Hc & Hca).
  destruct (pick_register_sound _ _ _ _ _ _ _ _ _ H1) as (_ & _ & ->).
  set (w1 := after_pick w (random_engine P) a reserve) in *.
  destruct (after_pick_spec w (random_engine P) a reserve)
    as (Huse & _ & _ & _ & _ & _ & Hother & _). fold w1 in Huse, Hother.
  assert (pool_ok w1 P) as HP1.
  { apply (pool_ok_same_names w); [|exact HP].
    intros x. apply after_pick_names. }
  pose proof (pick_register_choice _ _ _ _ _ _ _ _ _ HP1 H2) as Hb.
  assert (In c (unused w1 (candidates w1 P t s r u))) as Hc1.
  { unfold unused in *. apply filter_In in Hc as [Hc Hu].
    apply candidates_spec in Hc as [Hin Hsat].
    apply filter_In. rewrite (Hother c Hca). split; [|exact Hu].
    apply candidates_spec. split; [exact Hin|].
    now rewrite (satisfies_same_record w w1) by now apply Hother. }
  destruct (unused w1 (candidates w1 P t s r u)) as [|x l] eqn:E;
    [destruct Hc1|].
  rewrite <- E in Hb. unfold unused in Hb. apply filter_In in Hb as [_ Hub].
  apply negb_true_iff in Hub.
  assert (b <> a) as Hba by (intros ->; congruence).
  split; [exact Hba|]. now rewrite <- (Hother b Hba).
Qed.

Lemma pick_register_twice_distinct_witness :
  7 <> 5 /\ is_in_use (heap default_world 7) = false.
Proof.
  assert (pick_register default_pool (Some X) None (Some false) None false
            default_world
          = (Ok 5, after_pick default_world (random_engine default_pool) 5 false))
    as H1 by (vm_compute; reflexivity).
  assert (pick_register default_pool (Some X) None (Some false) None false
            (after_pick default_world (random_engine default_pool) 5 false)
          = (Ok 7, after_pick
                     (after_pick default_world (random_engine default_pool) 5 false)
                     (random_engine default_pool) 7 false))
    as H2 by (vm_compute; reflexivity).
  apply (pick_register_twice_distinct default_world default_pool (Some X)
           None (Some false) None false 5 _ 7 _ default_pool_ok H1 H2).
  exists 6. split; [vm_compute; tauto | intros E; discriminate E].
Defined.

(** X3.  Once [reserve_register] has reserved a register through any pool,
    a pick that supplies no reserved predicate, through that pool or any
    other, does not return it, and the register is still reserved after
    the pick. *)
Theorem reserved_register_is_not_picked w P n a w1 Q bank b w2 :
  reserve_register P n w = (Ok a, w1) ->
  pick_register_default Q bank w1 = (Ok b, w2) ->
  b <> a /\ is_reserved (heap w2 a) = true.
Proof.
  unfold reserve_register.
  destruct (get_register w P n) as [a'|]; [|discriminate].
  intros [= -> <-] Hpick.
  assert (pick_register_default Q bank
          = pick_register Q bank None (Some false) None false)
    as E by now destruct bank.
  rewrite E in Hpick.
  destruct (pick_register_sound _ _ _ _ _ _ _ _ _ Hpick) as (_ & Hsat & ->).
  assert (is_reserved (heap (set_is_reserved w a true) a) = true) as Ha
    by now rewrite heap_set_is_reserved_same.
  assert (is_reserved (heap (set_is_reserved w a true) b) = false) as Hb.
  { unfold satisfies in Hsat. simpl in Hsat. rewrite andb_true_r in Hsat.
    apply andb_true_iff in Hsat as [_ Hsat]. now apply eqb_prop in Hsat. }
  assert (b <> a) as Hne by (intros ->; congruence).
  split; [exact Hne|].
  destruct (after_pick_spec (set_is_reserved w a true) (random_engine Q) b false)
    as (_ & _ & _ & _ & _ & _ & Hother & _).
  rewrite Hother by congruence. exact Ha.
Qed.

Lemma reserved_register_is_not_picked_witness :
  6 <> 5
  /\ is_reserved
       (heap (after_pick (set_is_reserved default_world 5 true)
                (random_engine default_view) 6 false) 5) = true.
Proof.
  assert (reserve_register default_pool "t0" default_world
          = (Ok 5, set_is_reserved default_world 5 true))
    as H1 by (vm_compute; reflexivity).
  assert (pick_register_default default_view (Some X)
            (set_is_reserved default_world 5 true)
          = (Ok 6, after_pick (set_is_reserved default_world 5 true)
                     (random_engine default_view) 6 false))
    as H2 by (vm_compute; reflexivity).
  exact (reserved_register_is_not_picked default_world default_pool "t0" 5 _
           default_view (Some X) 6 _ H1 H2).
Defined.

Lemma reset_fold_identity l : forall w a,
  let w' := fold_left
              (fun w a => set_is_reserved (set_is_in_use w a false) a false) l w in
  name (heap w' a) = name (heap w a)
  /\ abi_name (heap w' a) = abi_name (heap w a)
  /\ type (heap w' a) = type (heap w a)
  /\ saved_by (heap w' a) = saved_by (heap w a).
Proof.
  induction l as [|x l IH]; intros w a; simpl; [tauto|].
  destruct (IH (set_is_reserved (set_is_in_use w x false) x false) a)
    as (H1 & H2 & H3 & H4).
  rewrite H1, H2, H3, H4. simpl.
  destruct (Nat.eqb a x) eqn:E; simpl; [|tauto].
  apply Nat.eqb_eq in E. subst a. rewrite Nat.eqb_refl. simpl. tauto.
Qed.

(** X4.  [reset_usage] always succeeds; afterwards every register of the
    pool is neither reserved nor in use (the registers that the default
    file reserves, such as [x0], included); the name, ABI alias, bank and
    save class of every register, the registers outside the pool and all
    the generators are as before. *)
Theorem reset_usage_clears_the_pool w P :
  exists w',
    reset_usage P w = (Ok tt, w')
    /\ (forall a, In a (values (registers P)) ->
                  is_reserved (heap w' a) = false
                  /\ is_in_use (heap w' a) = false)
    /\ (forall a, name (heap w' a) = name (heap w a)
                  /\ abi_name (heap w' a) = abi_name (heap w a)
                  /\ type (heap w' a) = type (heap w a)
                  /\ saved_by (heap w' a) = saved_by (heap w a))
    /\ (forall b, ~ In b (values (registers P)) -> heap w' b = heap w b)
    /\ rng w' = rng w.
Proof.
  eexists. split; [reflexivity|].
  destruct (reset_fold (values (registers P)) w) as (Hin & Hout & Hrng).
  split; [exact Hin|]. split; [|split; [exact Hout | exact Hrng]].
  intros a. apply reset_fold_identity.
Qed.

Lemma find_first {A} (f : A -> bool) (l : list A) a :
  find f l = Some a ->
  f a = true
  /\ exists before after,
       l = (before ++ a :: after)%list
       /\ forall b, In b before -> f b = false.
Proof.
  induction l as [|x l IH]; simpl; [discriminate|].
  destruct (f x) eqn:E.
  - intros [= <-]. split; [exact E|]. exists [], l. split; [reflexivity|].
    intros b [].
  - intros H. destruct (IH H) as (Ha & before & after & -> & Hb).
    split; [exact Ha|]. exists (x :: before), after. split; [reflexivity|].
    intros b [<-|Hin]; [exact E | now apply Hb].
Qed.

(** X5.  On a pool of the data model, [get_register] returns the register
    whose architectural name is the text given if there is one; otherwise
    the first register, in the order of the pool, whose ABI alias is that
    text; and [None], without raising, exactly when no register has the
    text as name or alias. *)
Theorem get_register_name_then_alias w P n :
  pool_ok w P ->
  match get_register w P n with
  | Some a =>
      In a (values (registers P))
      /\ (name (heap w a) = n
          \/ (abi_name (heap w a) = n
              /\ (forall b, In b (values (registers P)) ->
                            name (heap w b) <> n)
              /\ exists before after,
                   values (registers P) = (before ++ a :: after)%list
                   /\ forall b, In b before -> abi_name (heap w b) <> n))
  | None =>
      forall b, In b (values (registers P)) ->
                name (heap w b) <> n /\ abi_name (heap w b) <> n
  end.
Proof.
  intros HP. pose proof (get_register_spec w P n HP) as Hspec.
  unfold get_register in *.
  destruct (dict_get (registers P) n) as [a|] eqn:E.
  - destruct Hspec as [Hin [Hname|[Habi Hno]]].
    + split; [exact Hin | now left].
    + split; [exact Hin|]. left.
      apply (dict_get_in _ _ _ (proj1 HP)) in E.
      symmetry. now apply (pool_key_is_name w P).
  - destruct (find (fun a => String.eqb (abi_name (heap w a)) n)
                (values (registers P))) as [a|] eqn:Ef; [|exact Hspec].
    destruct Hspec as [Hin [Hname|[Habi Hno]]].
    + split; [exact Hin | now left].
    + split; [exact Hin|]. right. split; [exact Habi|]. split; [exact Hno|].
      destruct (find_first _ _ _ Ef) as (_ & before & after & Hl & Hb).
      exists before, after. split; [exact Hl|].
      intros b Hin' Heq. specialize (Hb b Hin').
      apply String.eqb_neq in Hb. contradiction.
Qed.

Lemma get_register_name_then_alias_witness :
  get_register default_world default_pool "ra" = Some 1
  /\ get_register default_world default_pool "x1" = Some 1
  /\ In 1 (values (registers default_pool))
  /\ (name (heap default_world 1) = "ra"
      \/ (abi_name (heap default_world 1) = "ra"
          /\ (forall b, In b (values (registers default_pool)) ->
                        name (heap default_world b) <> "ra")
          /\ exists before after,
               values (registers default_pool) = (before ++ 1 :: after)%list
               /\ forall b, In b before ->
                            abi_name (heap default_world b) <> "ra")).
Proof.
  assert (get_register default_world default_pool "ra" = Some 1) as E
    by (vm_compute; reflexivity).
  split; [exact E|]. split; [vm_compute; reflexivity|].
  pose proof (get_register_name_then_alias default_world default_pool "ra"
                default_pool_ok) as H.
  rewrite E in H. exact H.
Defined.

Lemma filter_same_twice {A} (p : A -> bool) (l : list A) :
  List.filter p (List.filter p l) = List.filter p l.
Proof.
  rewrite filter_filter. apply filter_ext. intros a. now destruct (p a).
Qed.

(** X6.  On a pool of the data model, the pool that [filter] returns is
    again a pool of the data model (distinct keys, each the name of its
    register), it keeps the order of its parent, and it is a fixed point:
    filtering it with the same predicates returns the same pool. *)
Theorem filter_result_is_a_fixed_point w P t s r u G :
  pool_ok w P ->
  filter w P t s r u = Ok G ->
  pool_ok w G
  /\ values (registers G)
     = List.filter (satisfies w t s r u) (values (registers P))
  /\ filter w G t s r u = Ok G.
Proof.
  intros HP HG.
  destruct (filter_pool_ok _ _ _ _ _ _ _ HP HG) as [HGok Hv].
  split; [exact HGok|]. split; [exact Hv|].
  rewrite (filter_exact _ _ _ _ _ _ HGok). unfold candidates at 1.
  rewrite Hv. unfold candidates. rewrite filter_same_twice.
  rewrite (filter_exact _ _ _ _ _ _ HP) in HG. unfold candidates in HG.
  destruct (List.filter (satisfies w t s r u) (values (registers P)));
    [discriminate HG|].
  injection HG as <-. reflexivity.
Qed.

Lemma filter_result_is_a_fixed_point_witness :
  pool_ok default_world default_view
  /\ values (registers default_view)
     = List.filter (satisfies default_world (Some X) None None None)
                   (values (registers default_pool))
  /\ filter default_world default_view (Some X) None None None
     = Ok default_view.
Proof.
  assert (filter default_world default_pool (Some X) None None None
          = Ok default_view) as E by (vm_compute; reflexivity).
  exact (filter_result_is_a_fixed_point default_world default_pool (Some X)
           None None None default_view default_pool_ok E).
Defined.

(* ================================================================= *)
(** ** More on the instruction catalog *)

(** X7.  When the operand count is right, the operands before some
    position meet the contract of their kinds, and the operand at that
    position, of a kind other than [BASE_OFFSET], does not, [generate]
    raises the mismatch error carrying that position (counted from 1) and
    that kind, provided the operand can be printed in the message.  When
    it cannot, being a tuple that holds a label without address,
    formatting the message raises [TypeError] instead. *)
Theorem generate_reports_the_first_mismatch w d ks k rest pre v post strs :
  instruction.value (instruction.format d) = (ks ++ k :: rest)%list ->
  renders_all w ks pre strs ->
  length post = length rest ->
  k <> BASE_OFFSET -> (forall s, ~ renders w k v s) ->
  (str_raises v = false ->
   instruction.generate w d (pre ++ v :: post)%list
   = Err (OperandTypeMismatch (length pre + 1) k))
  /\ (str_raises v = true ->
      instruction.generate w d (pre ++ v :: post)%list = Err TypeError).
Proof.
  intros Hfmt Hpre Hpost Hk Hno.
  rewrite (generate_rejects_mismatch w d ks k rest pre v post strs
             Hfmt Hpre Hpost Hk Hno).
  split; intros ->; reflexivity.
Qed.

Lemma generate_reports_the_first_mismatch_witness :
  instruction.generate raw_world
    (instruction.mkInstructionDefinition "ADD" instruction.R "I")
    [Atom (Reg 0); Atom (Reg 1); Atom (Int 5)]
  = Err (OperandTypeMismatch 3 REGISTER)
  /\ instruction.generate raw_world
       (instruction.mkInstructionDefinition "ADD" instruction.R "I")
       [Atom (Reg 0); Atom (Reg 1);
        Tuple [Lbl (label.mkLabel "loop" None None)]]
     = Err TypeError.
Proof.
  split.
  - apply (proj1 (generate_reports_the_first_mismatch raw_world
                    (instruction.mkInstructionDefinition "ADD" instruction.R "I")
                    [REGISTER; REGISTER] REGISTER []
                    [Atom (Reg 0); Atom (Reg 1)] (Atom (Int 5)) [] ["x10"; "x11"]
                    eq_refl
                    (renders_cons raw_world _ _ _ _ _ _
                       (renders_register raw_world 0 eq_refl)
                       (renders_cons raw_world _ _ _ _ _ _
                          (renders_register raw_world 1 eq_refl)
                          (renders_nil raw_world)))
                    eq_refl
                    ltac:(discriminate)
                    ltac:(intros s H; inversion H))).
    reflexivity.
  - apply (proj2 (generate_reports_the_first_mismatch raw_world
                    (instruction.mkInstructionDefinition "ADD" instruction.R "I")
                    [REGISTER; REGISTER] REGISTER []
                    [Atom (Reg 0); Atom (Reg 1)]
                    (Tuple [Lbl (label.mkLabel "loop" None None)]) []
                    ["x10"; "x11"]
                    eq_refl
                    (renders_cons raw_world _ _ _ _ _ _
                       (renders_register raw_world 0 eq_refl)
                       (renders_cons raw_world _ _ _ _ _ _
                          (renders_register raw_world 1 eq_refl)
                          (renders_nil raw_world)))
                    eq_refl
                    ltac:(discriminate)
                    ltac:(intros s H; inversion H))).
    reflexivity.
Defined.

Lemma RegisterType_eqb_eq a b : RegisterType_eqb a b = true -> a = b.
Proof. destruct a, b; simpl; congruence. Qed.

Lemma format_operand_accepts w i k v s :
  k <> BASE_OFFSET ->
  instruction.format_operand w i k v = Ok s -> renders w k v s.
Proof.
  intros Hk.
  destruct k; try congruence; destruct v as [[a|c|l|z|t|]|items];
    cbn [instruction.format_operand]; unfold instruction.mismatch;
    cbn [str_raises]; try discriminate;
    try (destruct (existsb atom_repr_raises items); discriminate).
  - destruct (RegisterType_eqb (type (heap w a)) X) eqn:E; [|discriminate].
    intros [= <-]. apply renders_register. now apply RegisterType_eqb_eq.
  - intros [= <-]. unfold Py.hex. destruct (Z.ltb_spec z 0).
    + now apply renders_negative_immediate.
    + now apply renders_immediate.
  - intros [= <-]. apply renders_label.
  - destruct (RegisterType_eqb (type (heap w a)) F) eqn:E; [|discriminate].
    intros [= <-]. apply renders_fregister. now apply RegisterType_eqb_eq.
  - intros [= <-]. apply renders_csr.
Qed.

Lemma nth_error_skipn {A} (l : list A) : forall i k,
  nth_error l i = Some k -> skipn i l = k :: skipn (S i) l.
Proof.
  induction l as [|x l IH]; intros i k H.
  - destruct i; discriminate H.
  - destruct i as [|i]; simpl in *; [now injection H as -> | now apply IH].
Qed.

Lemma generate_loop_accepts w fmt :
  ~ In BASE_OFFSET fmt ->
  forall ops i acc out,
    length ops = length (skipn i fmt) ->
    instruction.generate_loop w fmt i ops acc = Ok out ->
    exists strs, out = (acc ++ strs)%list
                 /\ renders_all w (skipn i fmt) ops strs.
Proof.
  intros Hno. induction ops as [|v vs IH]; intros i acc out Hlen; simpl.
  - intros [= <-]. exists []. split; [now rewrite app_nil_r|].
    destruct (skipn i fmt); [constructor | discriminate Hlen].
  - destruct (nth_error fmt i) as [k|] eqn:En; [|discriminate].
    destruct (instruction.format_operand w i k v) as [s|e] eqn:Ef;
      [|discriminate].
    intros Hloop. rewrite (nth_error_skipn _ _ _ En) in Hlen |- *.
    simpl in Hlen. injection Hlen as Hlen.
    destruct (IH (S i) _ _ Hlen Hloop) as (strs & -> & Hall).
    exists (s :: strs). split; [now rewrite <- app_assoc|].
    constructor; [|exact Hall].
    apply (format_operand_accepts w i k v s); [|exact Ef].
    intros ->. apply Hno. eapply nth_error_In, En.
Qed.

(** X8.  For a format without a [BASE_OFFSET] operand, [generate] accepts
    only what the operand contract allows: when it returns a line, the
    operands meet the contract of the format, kind by kind, and the line is
    the lower-case mnemonic, a space, and their renderings joined by a
    comma and a space. *)
Theorem generate_accepts_only_valid_operands w d ops line :
  ~ In BASE_OFFSET (instruction.value (instruction.format d)) ->
  instruction.generate w d ops = Ok line ->
  exists strs,
    renders_all w (instruction.value (instruction.format d)) ops strs
    /\ line = (Py.lower (instruction.mnemonic d) ++ " "
               ++ Py.join ", " strs)%string.
Proof.
  intros Hno. unfold instruction.generate.
  destruct (Nat.eqb (length ops)
              (length (instruction.value (instruction.format d)))) eqn:E;
    simpl; [|discriminate].
  apply Nat.eqb_eq in E.
  destruct (instruction.generate_loop w _ 0 ops []) as [out|e] eqn:El;
    [|discriminate].
  intros [= <-].
  destruct (generate_loop_accepts w _ Hno ops 0 [] out E El) as (strs & -> & H).
  exists strs. split; [exact H | reflexivity].
Qed.

Lemma generate_accepts_only_valid_operands_witness :
  exists strs,
    renders_all raw_world (instruction.value (instruction.format ADDI))
      [Atom (Reg 0); Atom (Reg 1); Atom (Int 5)] strs
    /\ "addi x10, x11, 0x5"
       = (Py.lower (instruction.mnemonic ADDI) ++ " " ++ Py.join ", " strs)%string.
Proof.
  apply (generate_accepts_only_valid_operands raw_world ADDI
           [Atom (Reg 0); Atom (Reg 1); Atom (Int 5)] "addi x10, x11, 0x5").
  - simpl. intros [H|[H|[H|[]]]]; discriminate H.
  - reflexivity.
Defined.

Lemma unset_or_equal_asked s x :
  instruction.unset_or_equal s x = supplied (asked s) (String.eqb x).
Proof.
  destruct s as [[|c t]|]; reflexivity.
Qed.

Lemma instruction_filter_spec self e m f :
  NoDup (keys (instruction.instructions self)) ->
  instruction.instructions (instruction.filter self e m f)
  = match List.filter (fun kv => selected e m f (snd kv))
                      (instruction.instructions self) with
    | [] => instruction.default_instructions
    | hits => hits
    end
  /\ instruction.random_engine (instruction.filter self e m f) = random_module.
Proof.
  intros Hnd. split; [|reflexivity].
  unfold instruction.filter, instruction.InstructionSet_init.
  cbn [instruction.instructions].
  rewrite (filter_ext _ (fun kv => selected e m f (snd kv))).
  - rewrite dict_of_nodup.
    + now destruct (List.filter _ (instruction.instructions self)).
    + unfold keys. now apply NoDup_map_filter.
  - intros [k d]. unfold selected. simpl.
    rewrite !unset_or_equal_asked. now destruct f.
Qed.

(** X9.  On a catalog with distinct keys, [InstructionSet.filter] returns
    the entries whose definition matches every predicate asked for, in the
    order of the catalog; when no entry matches it does not return an empty
    catalog but the default one.  The catalog returned draws from the
    generator of the [random] module. *)
Theorem instruction_filter_matches_or_defaults self e m f :
  NoDup (keys (instruction.instructions self)) ->
  instruction.instructions (instruction.filter self e m f)
  = match List.filter (fun kv => selected e m f (snd kv))
                      (instruction.instructions self) with
    | [] => instruction.default_instructions
    | hits => hits
    end
  /\ instruction.random_engine (instruction.filter self e m f) = random_module.
Proof. apply instruction_filter_spec. Qed.

Lemma instruction_filter_matches_or_defaults_witness :
  instruction.instructions
    (instruction.filter (instruction.InstructionSet_init None None)
       (Some "Zicsr") None None)
  = instruction.default_instructions
  /\ keys (instruction.instructions
             (instruction.filter (instruction.InstructionSet_init None None)
                (Some "F") None None))
     = ["FADD.S"].
Proof.
  assert (NoDup (keys (instruction.instructions
                         (instruction.InstructionSet_init None None)))) as H
    by (apply distinct_NoDup; vm_compute; reflexivity).
  split.
  - rewrite (proj1 (instruction_filter_matches_or_defaults _ (Some "Zicsr")
                      None None H)).
    vm_compute. reflexivity.
  - rewrite (proj1 (instruction_filter_matches_or_defaults _ (Some "F")
                      None None H)).
    vm_compute. reflexivity.
Defined.

Lemma choice_ok_in {A} (g g' : Random) (l : list A) x :
  choice g l = (Ok x, g') -> In x l /\ g' = advance g.
Proof.
  destruct l as [|y l]; [discriminate|]. intros H.
  destruct (choice_in g (y :: l)) as (x' & E & Hin); [discriminate|].
  rewrite E in H. injection H as <- <-. now split.
Qed.

Lemma instruction_filter_not_empty self e m f :
  instruction.instructions (instruction.filter self e m f) <> [].
Proof.
  unfold instruction.filter, instruction.InstructionSet_init.
  cbn [instruction.instructions].
  destruct (dict_of _); [|discriminate].
  intros H. vm_compute in H. discriminate H.
Qed.

Lemma pick_random_instruction_finds self e f w :
  (exists d,
     instruction.pick_random_instruction self e f None w
     = (Ok (Some d),
        rng_set w (instruction.random_engine self)
                (advance (rng w (instruction.random_engine self))))
     /\ In d (values (instruction.instructions
                        (instruction.filter self e None f))))
  /\ instruction.pick_random_instruction self e f (Some []) w
     = instruction.pick_random_instruction self e f None w.
Proof.
  split; [|reflexivity].
  unfold instruction.pick_random_instruction.
  pose proof (instruction_filter_not_empty self e None f) as Hne.
  destruct (instruction.instructions (instruction.filter self e None f))
    as [|kv cat]; [congruence|].
  destruct (choice_in (rng w (instruction.random_engine self))
              (values (kv :: cat))) as (d & E & Hin); [discriminate|].
  exists d. rewrite E. now split.
Qed.

(** X10.  Without a list of mnemonics (or with an empty one),
    [pick_random_instruction] never returns [None]: it returns a definition
    of the catalog that [filter] gives for the extension and the format,
    which is the default catalog when nothing matches them, and it takes
    one draw from the engine of the catalog it was called on. *)
Theorem pick_random_instruction_always_finds_one self e f w :
  (exists d,
     instruction.pick_random_instruction self e f None w
     = (Ok (Some d),
        rng_set w (instruction.random_engine self)
                (advance (rng w (instruction.random_engine self))))
     /\ In d (values (instruction.instructions
                        (instruction.filter self e None f))))
  /\ instruction.pick_random_instruction self e f (Some []) w
     = instruction.pick_random_instruction self e f None w.
Proof. apply pick_random_instruction_finds. Qed.

Lemma flat_map_nil {A B} (f : A -> list B) (l : list A) :
  (forall x, In x l -> f x = []) -> flat_map f l = [].
Proof.
  induction l as [|x l IH]; simpl; intros H; [reflexivity|].
  rewrite (H x) by now left. apply IH. intros y Hy. apply H. now right.
Qed.

(** X11.  With a non-empty list of mnemonics, [pick_random_instruction]
    ignores the extension and the format; it returns [None], drawing
    nothing, when no mnemonic of the list is a key of the catalog; it
    returns a definition as soon as one is; and a definition it returns is
    the entry of the catalog under a mnemonic of the list. *)
Theorem pick_random_instruction_from_a_list self e f m l w :
  instruction.pick_random_instruction self e f (Some (m :: l)) w
  = instruction.pick_random_instruction self None None (Some (m :: l)) w
  /\ ((forall x, In x (m :: l) ->
                 dict_get (instruction.instructions self) x = None) ->
      instruction.pick_random_instruction self e f (Some (m :: l)) w
      = (Ok None, w))
  /\ ((exists x d0, In x (m :: l)
                    /\ dict_get (instruction.instructions self) x = Some d0) ->
      exists d,
        instruction.pick_random_instruction self e f (Some (m :: l)) w
        = (Ok (Some d),
           rng_set w (instruction.random_engine self)
                   (advance (rng w (instruction.random_engine self)))))
  /\ (forall d w',
        instruction.pick_random_instruction self e f (Some (m :: l)) w
        = (Ok (Some d), w') ->
        exists x, In x (m :: l)
                  /\ dict_get (instruction.instructions self) x = Some d).
Proof.
  split; [reflexivity|].
  unfold instruction.pick_random_instruction.
  set (items := flat_map
                  (fun instr =>
                     match dict_get (instruction.instructions self) instr with
                     | Some d => [(instr, d)]
                     | None => []
                     end) (m :: l)).
  split; [|split].
  - intros Hnone. replace items with (@nil (string * instruction.InstructionDefinition)).
    + reflexivity.
    + symmetry. apply flat_map_nil. intros x Hx. now rewrite (Hnone x Hx).
  - intros (x & d0 & Hx & Hd0).
    assert (items <> []) as Hne.
    { intros E. assert (In (x, d0) items) as Hin.
      { apply in_flat_map. exists x. split; [exact Hx|]. rewrite Hd0. now left. }
      rewrite E in Hin. destruct Hin. }
    apply dict_of_not_nil in Hne.
    destruct (dict_of items) as [|kv cat]; [congruence|].
    destruct (choice_in (rng w (instruction.random_engine self))
                (values (kv :: cat))) as (d & E & _); [discriminate|].
    exists d. now rewrite E.
  - intros d w'. destruct (dict_of items) as [|kv cat] eqn:Ed; [discriminate|].
    destruct (choice (rng w (instruction.random_engine self)) (values (kv :: cat)))
      as [[d'|err] g] eqn:Ec; [|discriminate].
    intros [= -> _]. apply choice_ok_in in Ec as [Hin _].
    rewrite <- Ed in Hin. apply dict_of_values in Hin.
    unfold values in Hin. apply in_map_iff in Hin as ([k d'] & Hd & Hin).
    simpl in Hd. subst d'. apply in_flat_map in Hin as (x & Hx & Hin).
    exists x. split; [exact Hx|].
    destruct (dict_get (instruction.instructions self) x) as [d1|];
      [|destruct Hin].
    destruct Hin as [[= _ ->]|[]]. reflexivity.
Qed.

Lemma pick_random_instruction_from_a_list_witness :
  instruction.pick_random_instruction
    (instruction.InstructionSet_init None None) (Some "F") None
    (Some ["MUL"; "DIV"]) default_world
  = (Ok None, default_world).
Proof.
  apply (proj1 (proj2 (pick_random_instruction_from_a_list
                         (instruction.InstructionSet_init None None) (Some "F")
                         None "MUL" ["DIV"] default_world))).
  intros x [<-|[<-|[]]]; vm_compute; reflexivity.
Defined.

(* ================================================================= *)
(** ** The CSR catalog *)

Section DictUpdates.
Context {V : Type}.
Implicit Types (d : dict V) (k : string) (v : V).

Lemma dict_get_set_same d k v : dict_get (dict_set d k v) k = Some v.
Proof.
  induction d as [|[k' v'] d IH]; simpl.
  - now rewrite String.eqb_refl.
  - destruct (String.eqb k' k) eqn:E; simpl; rewrite E; [reflexivity | exact IH].
Qed.

Lemma dict_get_set_other d k v k' :
  k' <> k -> dict_get (dict_set d k v) k' = dict_get d k'.
Proof.
  intros Hne. induction d as [|[k0 v0] d IH]; simpl.
  - apply String.eqb_neq in Hne. rewrite String.eqb_sym in Hne. now rewrite Hne.
  - destruct (String.eqb_spec k0 k) as [->|Hk]; simpl.
    + apply String.eqb_neq in Hne. rewrite String.eqb_sym in Hne.
      now rewrite Hne.
    + now rewrite IH.
Qed.

Lemma dict_set_keys_nodup d k v : NoDup (keys d) -> NoDup (keys (dict_set d k v)).
Proof.
  induction d as [|[k0 v0] d IH]; simpl; intros H.
  - constructor; [intros [] | constructor].
  - inversion H as [|? ? Hk Hd]; subst.
    destruct (String.eqb_spec k0 k) as [->|Hne]; simpl; [exact H|].
    constructor; [|now apply IH].
    intros Hin. apply Hk. clear IH H Hd Hk.
    induction d as [|[k1 v1] d IH]; simpl in *.
    + destruct Hin as [E|[]]. congruence.
    + destruct (String.eqb_spec k1 k) as [->|Hk1]; simpl in *; [exact Hin|].
      destruct Hin as [E|Hin]; [now left | right; now apply IH].
Qed.

Lemma dict_del_keys d k x : In x (keys (dict_del d k)) -> In x (keys d).
Proof.
  induction d as [|[k0 v0] d IH]; simpl; [tauto|].
  destruct (String.eqb k0 k); simpl; [tauto|].
  intros [E|H]; [now left | right; now apply IH].
Qed.

Lemma dict_del_keys_nodup d k : NoDup (keys d) -> NoDup (keys (dict_del d k)).
Proof.
  induction d as [|[k0 v0] d IH]; simpl; intros H; [constructor|].
  inversion H as [|? ? Hk Hd]; subst.
  destruct (String.eqb k0 k); simpl; [exact Hd|].
  constructor; [|now apply IH]. intros Hin. apply Hk.
  now apply dict_del_keys in Hin.
Qed.

Lemma dict_get_del_same d k :
  NoDup (keys d) -> dict_get (dict_del d k) k = None.
Proof.
  induction d as [|[k0 v0] d IH]; simpl; intros H; [reflexivity|].
  inversion H as [|? ? Hk Hd]; subst.
  destruct (String.eqb_spec k0 k) as [->|Hne]; simpl.
  - now apply dict_get_none.
  - apply String.eqb_neq in Hne. rewrite Hne. now apply IH.
Qed.

Lemma dict_get_del_other d k k' :
  k' <> k -> dict_get (dict_del d k) k' = dict_get d k'.
Proof.
  intros Hne. induction d as [|[k0 v0] d IH]; simpl; [reflexivity|].
  destruct (String.eqb_spec k0 k) as [->|Hk]; simpl.
  - apply String.eqb_neq in Hne. rewrite String.eqb_sym in Hne.
    now rewrite Hne.
  - now rewrite IH.
Qed.
End DictUpdates.

(** X12.  A CSR that [add_csr] stores is found again by [get_csr] under
    every spelling of its name that has the same upper case, with the name
    in the case it was given; the entries under other names are what they
    were, and adding keeps the keys of the catalog distinct. *)
Theorem get_csr_after_add_csr self n d a n' :
  (Py.upper n' = Py.upper n ->
   csr.get_csr (csr.add_csr self n d a) n'
   = csr.Found (csr.mkCSRRegister n d a))
  /\ (Py.upper n' <> Py.upper n ->
      csr.get_csr (csr.add_csr self n d a) n' = csr.get_csr self n')
  /\ (NoDup (keys (csr.registers self)) ->
      NoDup (keys (csr.registers (csr.add_csr self n d a)))).
Proof.
  unfold csr.get_csr, csr.add_csr. cbn [csr.registers]. split; [|split].
  - intros ->. now rewrite dict_get_set_same.
  - intros Hne. now rewrite dict_get_set_other.
  - apply dict_set_keys_nodup.
Qed.

Lemma get_csr_after_add_csr_witness :
  csr.get_csr (csr.add_csr (csr.CSRRegisters_init None) "NewCsr" "A new CSR" 0x500)
              "newcsr"
  = csr.Found (csr.mkCSRRegister "NewCsr" "A new CSR" 0x500).
Proof.
  apply (proj1 (get_csr_after_add_csr (csr.CSRRegisters_init None)
                  "NewCsr" "A new CSR" 0x500 "newcsr")).
  reflexivity.
Defined.

(** X13.  On a catalog with distinct keys, [remove_csr] of a name that is
    present (in any case) returns a catalog where [get_csr] of that name
    fails and every other name is found as before; [remove_csr] of a name
    that is absent raises the lookup error, as [get_csr] does. *)
Theorem get_csr_after_remove_csr self n :
  NoDup (keys (csr.registers self)) ->
  match csr.remove_csr self n with
  | csr.Found self' =>
      (exists c, csr.get_csr self n = csr.Found c)
      /\ NoDup (keys (csr.registers self'))
      /\ forall n',
           (Py.upper n' = Py.upper n ->
            csr.get_csr self' n' = csr.NoCsrNamed n')
           /\ (Py.upper n' <> Py.upper n ->
               csr.get_csr self' n' = csr.get_csr self n')
  | csr.NoCsrNamed m => m = n /\ csr.get_csr self n = csr.NoCsrNamed n
  end.
Proof.
  intros Hnd. unfold csr.remove_csr, csr.get_csr, dict_mem.
  destruct (dict_get (csr.registers self) (Py.upper n)) as [c|] eqn:E.
  - cbn [csr.registers]. split; [now exists c|].
    split; [now apply dict_del_keys_nodup|].
    intros n'. split.
    + intros ->. now rewrite dict_get_del_same.
    + intros Hne. now rewrite dict_get_del_other.
  - now split.
Qed.

Lemma get_csr_after_remove_csr_witness :
  match csr.remove_csr (csr.CSRRegisters_init None) "mie" with
  | csr.Found self' =>
      (exists c, csr.get_csr (csr.CSRRegisters_init None) "mie" = csr.Found c)
      /\ NoDup (keys (csr.registers self'))
      /\ forall n',
           (Py.upper n' = Py.upper "mie" ->
            csr.get_csr self' n' = csr.NoCsrNamed n')
           /\ (Py.upper n' <> Py.upper "mie" ->
               csr.get_csr self' n'
               = csr.get_csr (csr.CSRRegisters_init None) n')
  | csr.NoCsrNamed m =>
      m = "mie"
      /\ csr.get_csr (csr.CSRRegisters_init None) "mie" = csr.NoCsrNamed "mie"
  end.
Proof.
  apply (get_csr_after_remove_csr (csr.CSRRegisters_init None) "mie").
  apply distinct_NoDup. vm_compute. reflexivity.
Defined.

(** X14.  [pick_random_csr] raises on an empty catalog, drawing nothing;
    on any other catalog it returns one of the entries and takes one draw
    from the engine of the catalog. *)
Theorem pick_random_csr_returns_an_entry self w :
  (csr.registers self = [] ->
   csr.pick_random_csr self w = (Err EmptyCsr, w))
  /\ (csr.registers self <> [] ->
      exists c,
        csr.pick_random_csr self w
        = (Ok c, rng_set w (csr.random_engine self)
                         (advance (rng w (csr.random_engine self))))
        /\ In c (values (csr.registers self))).
Proof.
  unfold csr.pick_random_csr. split.
  - intros ->. reflexivity.
  - intros Hne. destruct (csr.registers self) as [|kv d]; [congruence|].
    destruct (choice_in (rng w (csr.random_engine self)) (values (kv :: d)))
      as (c & E & Hin); [discriminate|].
    exists c. rewrite E. now split.
Qed.

Lemma pick_random_csr_returns_an_entry_witness :
  exists c,
    csr.pick_random_csr (csr.CSRRegisters_init None) default_world
    = (Ok c, rng_set default_world random_module
                     (advance (rng default_world random_module)))
    /\ In c (values (csr.registers (csr.CSRRegisters_init None))).
Proof.
  apply (proj2 (pick_random_csr_returns_an_entry (csr.CSRRegisters_init None)
                  default_world)).
  intros H. vm_compute in H. discriminate H.
Defined.

(* ================================================================= *)
(** ** The assembler *)

Lemma define_label_once a n l a' w w' :
  assembler.define_label a n w = (Ok (l, a'), w') ->
  w' = w
  /\ label.name l = n
  /\ dict_get (assembler.labels a') n = Some l
  /\ assembler.code a' = assembler.code a
  /\ (forall w2, assembler.define_label a' n w2 = (Err (DuplicateLabel n), w2))
  /\ (forall w2,
        assembler.add_label a' n w2
        = (Ok (l, assembler.append_code a' (n ++ ":")), w2)).
Proof.
  unfold assembler.define_label at 1.
  destruct (dict_mem (assembler.labels a) n); simpl; [discriminate|].
  unfold label.Label_init. destruct (label.is_valid_name n) as [[|]|e];
    try discriminate.
  intros [= <- <- <-]. cbn [label.name assembler.code assembler.set_label].
  assert (dict_get (assembler.labels
                      (assembler.set_label a n (label.mkLabel n None None))) n
          = Some (label.mkLabel n None None)) as Hget
    by apply dict_get_set_same.
  assert (dict_mem (assembler.labels
                      (assembler.set_label a n (label.mkLabel n None None))) n
          = true) as Hmem by (unfold dict_mem; now rewrite Hget).
  repeat split; try assumption.
  - intros w2. unfold assembler.define_label. now rewrite Hmem.
  - intros w2. unfold assembler.add_label, bind, ret.
    rewrite Hmem. cbn [negb]. cbv iota beta. rewrite Hget. reflexivity.
Qed.

(** X15.  A label is defined once: after [define_label] has succeeded for
    a name, the store is untouched, the label carries that name and is in
    the table, and the code is as it was; a second [define_label] of the
    name raises the duplicate error, while [add_label] of the name raises
    nothing, leaves the table alone and appends the line [name:]. *)
Theorem define_label_only_once a n l a' w w' :
  assembler.define_label a n w = (Ok (l, a'), w') ->
  w' = w
  /\ label.name l = n
  /\ dict_get (assembler.labels a') n = Some l
  /\ assembler.code a' = assembler.code a
  /\ (forall w2, assembler.define_label a' n w2 = (Err (DuplicateLabel n), w2))
  /\ (forall w2,
        assembler.add_label a' n w2
        = (Ok (l, assembler.append_code a' (n ++ ":")), w2)).
Proof. apply define_label_once. Qed.

Lemma define_label_only_once_witness :
  assembler.define_label
    (assembler.set_label demo_assembler "loop" (label.mkLabel "loop" None None))
    "loop" default_world
  = (Err (DuplicateLabel "loop"), default_world).
Proof.
  assert (assembler.define_label demo_assembler "loop" default_world
          = (Ok (label.mkLabel "loop" None None,
                 assembler.set_label demo_assembler "loop"
                   (label.mkLabel "loop" None None)), default_world))
    as H by (vm_compute; reflexivity).
  exact (proj1 (proj2 (proj2 (proj2 (proj2
           (define_label_only_once demo_assembler "loop" _ _ default_world _ H)))))
           default_world).
Defined.

Lemma randint_bounds g a b :
  (a <= b)%Z ->
  (a <= fst (randint g a b) <= b)%Z /\ snd (randint g a b) = advance g.
Proof.
  intros H. unfold randint, randbelow. simpl.
  pose proof (Z.mod_pos_bound (draws g (cursor g)) (b - a + 1)) as Hm.
  split; [lia | reflexivity].
Qed.

Lemma after_pick_identity w e a reserve : same_identity w (after_pick w e a reserve).
Proof.
  intros x.
  destruct (after_pick_spec w e a reserve)
    as (_ & _ & H1 & H2 & H3 & H4 & Hother & _).
  destruct (Nat.eq_dec x a) as [->|Hne]; [tauto|].
  rewrite (Hother x Hne). tauto.
Qed.

Lemma same_identity_refl w : same_identity w w.
Proof. intros a. tauto. Qed.

Lemma same_identity_trans w1 w2 w3 :
  same_identity w1 w2 -> same_identity w2 w3 -> same_identity w1 w3.
Proof.
  intros H12 H23 a. destruct (H12 a) as (A1 & A2 & A3 & A4).
  destruct (H23 a) as (B1 & B2 & B3 & B4).
  rewrite B1, B2, B3, B4. tauto.
Qed.

Lemma renders_same_identity w w' k v s :
  same_identity w w' -> renders w k v s -> renders w' k v s.
Proof.
  intros Hid H. destruct H as [a Ht|a Ht| | |z Hz|z Hz|a z].
  - destruct (Hid a) as (_ & <- & Hty & _). apply renders_register. congruence.
  - destruct (Hid a) as (_ & <- & Hty & _). apply renders_fregister. congruence.
  - constructor.
  - constructor.
  - now constructor.
  - now constructor.
  - destruct (Hid a) as (_ & <- & _). constructor.
Qed.

Lemma pick_of_bank_renders self b w a w' :
  pick_register self (Some b) None (Some false) None false w = (Ok a, w') ->
  type (heap w' a) = b /\ same_identity w w'.
Proof.
  intros H. destruct (pick_register_sound _ _ _ _ _ _ _ _ _ H) as (_ & Hsat & ->).
  split; [|apply after_pick_identity].
  destruct (after_pick_identity w (random_engine self) a false a)
    as (_ & _ & -> & _).
  unfold satisfies in Hsat. simpl in Hsat. rewrite !andb_true_r in Hsat.
  apply andb_true_iff in Hsat as [Hty _]. now apply RegisterType_eqb_eq.
Qed.

Lemma same_identity_rng_set w e g : same_identity w (rng_set w e g).
Proof. intros a. simpl. tauto. Qed.

Lemma generate_random_operand_contract a k w v a' w' :
  assembler.generate_random_operand a k w = (Ok (v, a'), w') ->
  (exists s, renders w' k v s)
  /\ same_identity w w'
  /\ (forall z, v = Atom (Int z) \/ (exists r, v = Tuple [Reg r; Int z]) ->
                (0 <= z <= 0xFFFFFFFF)%Z)
  /\ assembler.isa a' = assembler.isa a
  /\ assembler.registers a' = assembler.registers a
  /\ assembler.csrs a' = assembler.csrs a
  /\ assembler.random_engine a' = assembler.random_engine a
  /\ assembler.code a' = assembler.code a.
Proof.
  destruct k; unfold assembler.generate_random_operand, bind, ret.
  - destruct (pick_register (assembler.registers a) (Some X) None (Some false)
                None false w) as [[r|e] w1] eqn:E; [|discriminate].
    intros [= <- <- <-]. destruct (pick_of_bank_renders _ _ _ _ _ E) as [Ht Hid].
    split; [eexists; now apply renders_register|]. split; [exact Hid|].
    split; [intros z [H|[r' H]]; discriminate H|]. now repeat split.
  - destruct (randint (rng w (assembler.random_engine a)) 0 4294967295)
      as [z g] eqn:E.
    intros [= <- <- <-].
    pose proof (randint_bounds (rng w (assembler.random_engine a)) 0 4294967295)
      as Hb. rewrite E in Hb. simpl in Hb. destruct Hb as [Hb _]; [lia|].
    split; [eexists; apply renders_immediate; lia|].
    split; [apply same_identity_rng_set|].
    split; [|now repeat split].
    intros z' [H|[r' H]]; [injection H as <-; exact Hb | discriminate H].
  - destruct (randint (rng w random_module) 0 1000) as [z g].
    unfold assembler.define_label.
    destruct (dict_mem (assembler.labels a) ("label_" ++ Py.str_int z));
      cbn [negb]; cbv beta iota; [discriminate|].
    destruct (label.Label_init ("label_" ++ Py.str_int z) None None)
      as [l|e]; cbv beta iota; [|discriminate].
    intros [= <- <- <-].
    split; [eexists; apply renders_label|].
    split; [apply same_identity_rng_set|].
    split; [intros z' [H|[r' H]]; discriminate H|]. now repeat split.
  - destruct (pick_register (assembler.registers a) (Some F) None (Some false)
                None false w) as [[r|e] w1] eqn:E; [|discriminate].
    intros [= <- <- <-]. destruct (pick_of_bank_renders _ _ _ _ _ E) as [Ht Hid].
    split; [eexists; now apply renders_fregister|]. split; [exact Hid|].
    split; [intros z [H|[r' H]]; discriminate H|]. now repeat split.
  - destruct (pick_register (assembler.registers a) (Some X) None (Some false)
                None false w) as [[r|e] w1] eqn:E; [|discriminate].
    destruct (randint (rng w1 (assembler.random_engine a)) 0 4294967295)
      as [z g] eqn:Ez.
    intros [= <- <- <-]. destruct (pick_of_bank_renders _ _ _ _ _ E) as [_ Hid].
    pose proof (randint_bounds (rng w1 (assembler.random_engine a)) 0 4294967295)
      as Hb. rewrite Ez in Hb. simpl in Hb. destruct Hb as [Hb _]; [lia|].
    split; [eexists; apply renders_base_offset|].
    split; [apply (same_identity_trans _ _ _ Hid), same_identity_rng_set|].
    split; [|now repeat split].
    intros z' [H|[r' H]]; [discriminate H | injection H as _ <-; exact Hb].
  - unfold csr.pick_random_csr.
    destruct (csr.registers (assembler.csrs a)) as [|kv d]; [discriminate|].
    destruct (choice (rng w (csr.random_engine (assembler.csrs a)))
                (values (kv :: d))) as [[c|e] g]; [|discriminate].
    intros [= <- <- <-].
    split; [eexists; apply renders_csr|].
    split; [apply same_identity_rng_set|].
    split; [intros z' [H|[r' H]]; discriminate H|]. now repeat split.
Qed.

Lemma pick_of_bank_in self b w a w' :
  pick_register self (Some b) None (Some false) None false w = (Ok a, w') ->
  In a (values (registers self)) /\ type (heap w' a) = b.
Proof.
  intros H. destruct (pick_of_bank_renders _ _ _ _ _ H) as [Ht _].
  destruct (pick_register_sound _ _ _ _ _ _ _ _ _ H) as (Hin & _).
  now split.
Qed.

Lemma generate_random_operand_generated a k w v a' w' :
  assembler.generate_random_operand a k w = (Ok (v, a'), w') ->
  generated w' a k v.
Proof.
  destruct k; unfold assembler.generate_random_operand, bind, ret.
  - destruct (pick_register (assembler.registers a) (Some X) None (Some false)
                None false w) as [[r|e] w1] eqn:E; [|discriminate].
    intros [= <- <- <-]. destruct (pick_of_bank_in _ _ _ _ _ E).
    now apply generated_register.
  - destruct (randint (rng w (assembler.random_engine a)) 0 4294967295)
      as [z g] eqn:E.
    intros [= <- <- <-].
    pose proof (randint_bounds (rng w (assembler.random_engine a)) 0 4294967295)
      as Hb. rewrite E in Hb. simpl in Hb. destruct Hb as [Hb _]; [lia|].
    now apply generated_immediate.
  - pose proof (randint_bounds (rng w random_module) 0 1000) as Hb.
    destruct (randint (rng w random_module) 0 1000) as [z g].
    simpl in Hb. destruct Hb as [Hb _]; [lia|].
    unfold assembler.define_label.
    destruct (dict_mem (assembler.labels a) ("label_" ++ Py.str_int z));
      cbn [negb]; cbv beta iota; [discriminate|].
    unfold label.Label_init.
    destruct (label.is_valid_name ("label_" ++ Py.str_int z)) as [[|]|e];
      cbv beta iota; try discriminate.
    intros [= <- <- <-]. now apply generated_label.
  - destruct (pick_register (assembler.registers a) (Some F) None (Some false)
                None false w) as [[r|e] w1] eqn:E; [|discriminate].
    intros [= <- <- <-]. destruct (pick_of_bank_in _ _ _ _ _ E).
    now apply generated_fregister.
  - destruct (pick_register (assembler.registers a) (Some X) None (Some false)
                None false w) as [[r|e] w1] eqn:E; [|discriminate].
    destruct (randint (rng w1 (assembler.random_engine a)) 0 4294967295)
      as [z g] eqn:Ez.
    intros [= <- <- <-]. destruct (pick_of_bank_in _ _ _ _ _ E) as [Hin Ht].
    pose proof (randint_bounds (rng w1 (assembler.random_engine a)) 0 4294967295)
      as Hb. rewrite Ez in Hb. simpl in Hb. destruct Hb as [Hb _]; [lia|].
    now apply generated_base_offset.
  - unfold csr.pick_random_csr.
    destruct (csr.registers (assembler.csrs a)) as [|kv d] eqn:Er;
      [discriminate|].
    destruct (choice (rng w (csr.random_engine (assembler.csrs a)))
                (values (kv :: d))) as [[c|e] g] eqn:Ec; [|discriminate].
    intros [= <- <- <-]. apply choice_ok_in in Ec as [Hin _].
    apply generated_csr. now rewrite Er.
Qed.

(** X16.  What [generate_random_operand] returns is, kind by kind: a
    register of the pool in the integer bank; a register of the pool in
    the float bank; an entry of the CSR table; an integer between 0 and
    0xFFFFFFFF; a label named [label_n] with n between 0 and 1000; a pair
    of a register of the pool in the integer bank and an integer between 0
    and 0xFFFFFFFF.  Each meets the operand contract of its kind.  The
    call changes no register's name, alias, bank or save class, and of the
    assembler only the label table. *)
Theorem generate_random_operand_meets_the_contract a k w v a' w' :
  assembler.generate_random_operand a k w = (Ok (v, a'), w') ->
  generated w' a k v
  /\ (exists s, renders w' k v s)
  /\ same_identity w w'
  /\ assembler.isa a' = assembler.isa a
  /\ assembler.registers a' = assembler.registers a
  /\ assembler.csrs a' = assembler.csrs a
  /\ assembler.random_engine a' = assembler.random_engine a
  /\ assembler.code a' = assembler.code a.
Proof.
  intros H. split; [now apply generate_random_operand_generated in H|].
  destruct (generate_random_operand_contract _ _ _ _ _ _ H)
    as (H1 & H2 & _ & H4).
  split; [exact H1|]. split; [exact H2 | exact H4].
Qed.

Lemma generate_random_operand_meets_the_contract_witness :
  generated
    (rng_set (after_pick (snd demo_start)
                (assembler.random_engine demo_assembler) 5 false)
       (assembler.random_engine demo_assembler)
       (advance (advance (rng (snd demo_start)
                            (assembler.random_engine demo_assembler)))))
    demo_assembler BASE_OFFSET (Tuple [Reg 5; Int 1]).
Proof.
  assert (assembler.generate_random_operand demo_assembler BASE_OFFSET
            (snd demo_start)
          = (Ok (Tuple [Reg 5; Int 1], demo_assembler),
             rng_set (after_pick (snd demo_start)
                        (assembler.random_engine demo_assembler) 5 false)
               (assembler.random_engine demo_assembler)
               (advance (advance (rng (snd demo_start)
                                    (assembler.random_engine demo_assembler))))))
    as H by (vm_compute; reflexivity).
  exact (proj1 (generate_random_operand_meets_the_contract _ _ _ _ _ _ H)).
Defined.

Lemma generate_operands_contract : forall kinds a w ops a' w',
  generate_operands a kinds w = (Ok (ops, a'), w') ->
  (exists strs, renders_all w' kinds ops strs)
  /\ same_identity w w'
  /\ assembler.isa a' = assembler.isa a
  /\ assembler.code a' = assembler.code a.
Proof.
  induction kinds as [|k ks IH]; intros a w ops a' w'; simpl.
  - unfold ret. intros [= <- <- <-].
    split; [exists []; constructor|]. split; [apply same_identity_refl|].
    now split.
  - unfold bind, ret.
    destruct (assembler.generate_random_operand a k w) as [[[v a1]|e] w1] eqn:E1;
      [|discriminate].
    cbn [fst snd].
    destruct (generate_operands a1 ks w1) as [[[vs a2]|e] w2] eqn:E2;
      [|discriminate].
    cbn [fst snd]. intros [= <- <- <-].
    destruct (generate_random_operand_contract _ _ _ _ _ _ E1)
      as ((s & Hr) & Hid1 & _ & Hisa1 & _ & _ & _ & Hcode1).
    destruct (IH _ _ _ _ _ E2) as ((strs & Hall) & Hid2 & Hisa2 & Hcode2).
    split; [|split; [|split]].
    + exists (s :: strs). constructor; [|exact Hall].
      now apply (renders_same_identity w1).
    + now apply (same_identity_trans _ w1).
    + congruence.
    + congruence.
Qed.

(** X17.  The operands that the driver generates, one call of
    [generate_random_operand] per kind of the format of an instruction,
    are always accepted: when the generation succeeds, [generate] renders a
    line from them, and [add_instruction] under the mnemonic of an
    instruction of the catalog appends that line and raises nothing. *)
Theorem generated_operands_are_accepted a d w ops a' w' :
  generate_operands a (instruction.value (instruction.format d)) w
  = (Ok (ops, a'), w') ->
  dict_get (instruction.instructions (assembler.isa a))
           (Py.upper (instruction.mnemonic d)) = Some d ->
  exists line,
    instruction.generate w' d ops = Ok line
    /\ assembler.add_instruction a' (instruction.mnemonic d) ops w'
       = (Ok (assembler.append_code a' line), w').
Proof.
  intros Hgen Hkey.
  destruct (generate_operands_contract _ _ _ _ _ _ Hgen)
    as ((strs & Hall) & _ & Hisa & _).
  pose proof (generate_renders w' d ops strs Hall) as Hline.
  eexists. split; [exact Hline|].
  unfold assembler.add_instruction. now rewrite Hisa, Hkey, Hline.
Qed.

Lemma generated_operands_are_accepted_witness :
  exists line,
    instruction.generate (snd demo_run) ADDI demo_operands = Ok line
    /\ assembler.add_instruction demo_assembler_after
         (instruction.mnemonic ADDI) demo_operands (snd demo_run)
       = (Ok (assembler.append_code demo_assembler_after line), snd demo_run).
Proof.
  assert (generate_operands demo_assembler
            (instruction.value (instruction.format ADDI)) (snd demo_start)
          = (Ok (demo_operands, demo_assembler_after), snd demo_run))
    as H by (vm_compute; reflexivity).
  assert (dict_get (instruction.instructions (assembler.isa demo_assembler))
            (Py.upper (instruction.mnemonic ADDI)) = Some ADDI)
    as K by (vm_compute; reflexivity).
  exact (generated_operands_are_accepted demo_assembler ADDI _ _ _ _ H K).
Defined.

(** X18.  The number of a random label is drawn between 0 and 1000 from
    the generator of the [random] module, and nothing guards against a
    repeat: once a random label has been generated, another call for which
    the module draws the same number raises the duplicate error for that
    label, the draw being spent. *)
Theorem random_label_collision a w l a1 w1 w2 :
  assembler.generate_random_operand a LABEL w = (Ok (Atom (Lbl l), a1), w1) ->
  fst (randint (rng w2 random_module) 0 1000)
  = fst (randint (rng w random_module) 0 1000) ->
  (exists z, (0 <= z <= 1000)%Z
             /\ label.name l = ("label_" ++ Py.str_int z)%string)
  /\ assembler.generate_random_operand a1 LABEL w2
     = (Err (DuplicateLabel (label.name l)),
        rng_set w2 random_module (advance (rng w2 random_module))).
Proof.
  unfold assembler.generate_random_operand.
  pose proof (randint_bounds (rng w random_module) 0 1000) as Hb.
  pose proof (randint_bounds (rng w2 random_module) 0 1000) as Hb2.
  destruct (randint (rng w random_module) 0 1000) as [z g] eqn:E.
  destruct (randint (rng w2 random_module) 0 1000) as [z2 g2] eqn:E2.
  cbn [fst snd] in *.
  destruct (assembler.define_label a ("label_" ++ Py.str_int z)
              (rng_set w random_module g)) as [[[l0 a0]|e] w0] eqn:Ed;
    [|discriminate].
  intros [= -> -> ->] ->.
  destruct (define_label_once _ _ _ _ _ _ Ed) as (_ & Hname & _ & _ & Hdup & _).
  split.
  - exists z. split; [apply Hb; lia | now symmetry].
  - rewrite Hname, Hdup. destruct Hb2 as [_ ->]; [lia|]. reflexivity.
Qed.

Lemma random_label_collision_witness :
  assembler.generate_random_operand
    (assembler.set_label demo_assembler "label_0"
       (label.mkLabel "label_0" None None))
    LABEL (snd demo_start)
  = (Err (DuplicateLabel "label_0"),
     rng_set (snd demo_start) random_module
             (advance (rng (snd demo_start) random_module))).
Proof.
  assert (assembler.generate_random_operand demo_assembler LABEL (snd demo_start)
          = (Ok (Atom (Lbl (label.mkLabel "label_0" None None)),
                 assembler.set_label demo_assembler "label_0"
                   (label.mkLabel "label_0" None None)),
             rng_set (snd demo_start) random_module
                     (advance (rng (snd demo_start) random_module))))
    as H by (vm_compute; reflexivity).
  exact (proj2 (random_label_collision demo_assembler (snd demo_start) _ _ _
                  (snd demo_start) H eq_refl)).
Defined.

(* ================================================================= *)
(** ** The driver *)

Lemma string_app_assoc (a b c : string) :
  ((a ++ b) ++ c = a ++ (b ++ c))%string.
Proof. induction a as [|x a IH]; simpl; [reflexivity | now rewrite IH]. Qed.

Lemma concat_snoc (l : list string) (x : string) :
  String.concat "" (l ++ [x]) = (String.concat "" l ++ x)%string.
Proof.
  induction l as [|y l IH]; [reflexivity|].
  destruct l as [|z l]; [reflexivity|].
  change (String.concat "" ((y :: z :: l) ++ [x]))
    with (y ++ String.concat "" ((z :: l) ++ [x]))%string.
  rewrite IH.
  change (String.concat "" (y :: z :: l))
    with (y ++ String.concat "" (z :: l))%string.
  now rewrite string_app_assoc.
Qed.

Lemma file_contents_append a line :
  assembler.file_contents (assembler.append_code a line)
  = (assembler.file_contents a ++ line ++ newline)%string.
Proof.
  unfold assembler.file_contents, assembler.append_code.
  cbn [assembler.code]. rewrite map_app. simpl map. apply concat_snoc.
Qed.

Lemma filter_all {A} (l : list A) : List.filter (fun _ => true) l = l.
Proof. induction l as [|x l IH]; simpl; congruence. Qed.

Lemma pick_register_error P t s r u reserve w e w' :
  pick_register P t s r u reserve w = (Err e, w') -> e = NoAppropriateRegister.
Proof.
  intros H. pose proof (pick_register_run w P t s r u reserve) as Hrun.
  destruct (filter w P t s r u) as [regs|e0].
  - destruct Hrun as (a & _ & Hrun). rewrite Hrun in H. discriminate H.
  - rewrite Hrun in H. now injection H as <- _.
Qed.

Lemma generate_random_operand_error a k w e w' :
  assembler.generate_random_operand a k w = (Err e, w') ->
  e = NoAppropriateRegister \/ e = EmptyCsr \/ exists n, e = DuplicateLabel n.
Proof.
  destruct k; unfold assembler.generate_random_operand, bind, ret.
  - destruct (pick_register (assembler.registers a) (Some X) None (Some false)
                None false w) as [[r|e0] w1] eqn:E; [discriminate|].
    intros [= <- _]. left. now apply pick_register_error in E.
  - destruct (randint (rng w (assembler.random_engine a)) 0 4294967295).
    discriminate.
  - destruct (randint (rng w random_module) 0 1000) as [z g].
    unfold assembler.define_label.
    destruct (dict_mem (assembler.labels a) ("label_" ++ Py.str_int z));
      cbn [negb]; cbv beta iota.
    + intros [= <- _]. right. right. now eexists.
    + discriminate.
  - destruct (pick_register (assembler.registers a) (Some F) None (Some false)
                None false w) as [[r|e0] w1] eqn:E; [discriminate|].
    intros [= <- _]. left. now apply pick_register_error in E.
  - destruct (pick_register (assembler.registers a) (Some X) None (Some false)
                None false w) as [[r|e0] w1] eqn:E.
    + destruct (randint (rng w1 (assembler.random_engine a)) 0 4294967295).
      discriminate.
    + intros [= <- _]. left. now apply pick_register_error in E.
  - unfold csr.pick_random_csr.
    destruct (csr.registers (assembler.csrs a)) as [|kv d].
    + intros [= <- _]. right. now left.
    + destruct (choice_in (rng w (csr.random_engine (assembler.csrs a)))
                  (values (kv :: d))) as (c & -> & _); discriminate.
Qed.

Lemma generate_operands_error : forall kinds a w e w',
  generate_operands a kinds w = (Err e, w') ->
  e = NoAppropriateRegister \/ e = EmptyCsr \/ exists n, e = DuplicateLabel n.
Proof.
  induction kinds as [|k ks IH]; intros a w e w'; simpl; [discriminate|].
  unfold bind, ret.
  destruct (assembler.generate_random_operand a k w) as [[[v a1]|e1] w1] eqn:E1.
  - cbn [fst snd].
    destruct (generate_operands a1 ks w1) as [[[vs a2]|e2] w2] eqn:E2;
      [discriminate|].
    intros [= <- _]. now apply IH in E2.
  - intros [= <- _]. now apply generate_random_operand_error in E1.
Qed.

Lemma catalog_lookup isa d :
  catalog_keyed isa ->
  In d (values (instruction.instructions
                  (instruction.filter isa None None None))) ->
  dict_get (instruction.instructions isa) (Py.upper (instruction.mnemonic d))
  = Some d.
Proof.
  intros (Hne & Hnd & Hkeys) Hin.
  rewrite (proj1 (instruction_filter_spec isa None None None Hnd)) in Hin.
  rewrite (filter_ext (fun kv => selected None None None (snd kv))
             (fun _ => true)), filter_all in Hin by reflexivity.
  destruct (instruction.instructions isa) as [|kv cat] eqn:E; [congruence|].
  rewrite <- E in *. unfold values in Hin.
  apply in_map_iff in Hin as ([k d'] & Hd & Hin). simpl in Hd. subst d'.
  rewrite Forall_forall in Hkeys. pose proof (Hkeys _ Hin) as Hk.
  simpl in Hk. rewrite <- Hk. now apply dict_get_in.
Qed.

(** X19.  On an assembler whose catalog is keyed as the default one, one
    iteration of the loop of [tc_03] either appends exactly one line to the
    code, so that the file written grows by that line and a newline, or it
    fails while generating an operand, because no register is available,
    the CSR table is empty, or the random label exists already.  It never
    fails in [add_instruction]: what the driver generates is always
    rendered. *)
Theorem tc_03_step_renders_what_it_generates a w :
  catalog_keyed (assembler.isa a) ->
  match tc_03_step a w with
  | (Ok a', _) =>
      exists line,
        assembler.code a' = (assembler.code a ++ [line])%list
        /\ assembler.file_contents a'
           = (assembler.file_contents a ++ line ++ newline)%string
  | (Err e, _) =>
      e = NoAppropriateRegister \/ e = EmptyCsr
      \/ exists n, e = DuplicateLabel n
  end.
Proof.
  intros Hcat. unfold tc_03_step, bind.
  destruct (pick_random_instruction_finds (assembler.isa a) None None w)
    as [(d & -> & Hd) _].
  apply (catalog_lookup _ _ Hcat) in Hd.
  destruct (generate_operands a (instruction.value (instruction.format d)) _)
    as [[[ops a1]|e] w1] eqn:E.
  - cbn [fst snd].
    destruct (generate_operands_contract _ _ _ _ _ _ E)
      as ((strs & Hall) & _ & Hisa & Hcode).
    pose proof (generate_renders w1 d ops strs Hall) as Hline.
    unfold assembler.add_instruction. rewrite Hisa, Hd, Hline.
    eexists. split.
    + cbn [assembler.code assembler.append_code]. now rewrite Hcode.
    + rewrite file_contents_append. unfold assembler.file_contents.
      now rewrite Hcode.
  - now apply generate_operands_error in E.
Qed.

Lemma tc_03_step_renders_what_it_generates_witness :
  match tc_03_step demo_assembler (snd demo_start) with
  | (Ok a', _) =>
      exists line,
        assembler.code a' = (assembler.code demo_assembler ++ [line])%list
        /\ assembler.file_contents a'
           = (assembler.file_contents demo_assembler ++ line ++ newline)%string
  | (Err e, _) =>
      e = NoAppropriateRegister \/ e = EmptyCsr
      \/ exists n, e = DuplicateLabel n
  end.
Proof.
  assert (catalog_keyed (assembler.isa demo_assembler)) as Hcat.
  { split; [|split].
    - intros H. vm_compute in H. discriminate H.
    - apply distinct_NoDup. vm_compute. reflexivity.
    - apply Forall_forall.
      assert (forallb (fun kv => String.eqb (fst kv)
                                   (Py.upper (instruction.mnemonic (snd kv))))
                (instruction.instructions (assembler.isa demo_assembler)) = true)
        as H by (vm_compute; reflexivity).
      pose proof (proj1 (forallb_forall _ _) H) as H'.
      intros kv Hin. apply String.eqb_eq. exact (H' kv Hin). }
  exact (tc_03_step_renders_what_it_generates demo_assembler (snd demo_start)
           Hcat).
Defined.
